(** * DC-Bot: the per-guild playback session of [music_player.py] and its
      command layer in [bot.py]

    The development embeds the [MusicPlayer] class (queue, current slot,
    advance event, player task, volume), the voice client it drives and the
    registry [bot.music_players], and proves the properties stated for the
    playback session. Line numbers (l.N) are those of music_player.py, and
    of bot.py in the part on bot.py.

    Conventions.
    - Python values of unknown type ([Dict[str, Any]]) are [pyval].
    - A coroutine is cut at its [await]s that really suspend: each event of
      the machine runs one task from the point where it is resumed to its
      next suspension, as asyncio's single-threaded loop does. An
      [Event.wait()] on a set event does not suspend.
    - [add_to_queue] suspends once, in the resolver call, before it has
      touched the session; it is one event, at its completion.
    - [ctx.send] delivers: its message is recorded in the output trace of
      the step, with the two log lines that carry a track. (So the handler
      of l.311-314, which only a failing [ctx.send] reaches, is not part of
      the model.)
    - The voice client is [discord.VoiceClient] by its documented contract:
      [play] refuses when the client is not connected or already playing,
      [stop] ends the stream, the [after] hook runs when the stream ends,
      [disconnect] stops and detaches the client.
    - [Task.cancel()] takes effect at once: a cancelled task runs none of
      its own code again.
    - Time is not measured: the firing of [timeout(300)] is an input of the
      loop.
    - The three services of the Python runtime that the code calls on
      strings ([re] matching in [is_url], [str.strip], [int]) are fields of
      the class [Runtime]. *)

From Stdlib Require Import ZArith Ascii String List Bool Lia.
From Stdlib Require Import Floats.SpecFloat.
From Stdlib Require Decimal DecimalString DecimalZ.
From stdpp Require Import gmap strings list fin_maps.

#[local] Open Scope string_scope.
#[local] Open Scope Z_scope.

#[local] Set Warnings "-register-all".

(* ===================================================================== *)
(** ** Python values and exceptions *)
(* ===================================================================== *)

Module Py.

(** Python floats are IEEE-754 binary64 values: [spec_float]. *)

Inductive pyval :=
| PyNone
| PyBool (b : bool)
| PyInt (n : Z)
| PyFloat (f : spec_float)
| PyStr (s : string)
| PyList (l : list pyval)
| PyDict (d : gmap string pyval).

(** Exceptions by class, each with the text of [str(e)]. *)
Inductive pyexn :=
| Exception (msg : string)
| TypeError (msg : string)
| IndexError (msg : string)
| KeyError (msg : string)
| AttributeError (msg : string).

Definition str_exn (e : pyexn) : string :=
  match e with
  | Exception m | TypeError m | IndexError m | KeyError m
  | AttributeError m => m
  end.

(** The result of a call that may raise. *)
Inductive result (A : Type) :=
| Return (a : A)
| Raise (e : pyexn).
Arguments Return {A} a.
Arguments Raise {A} e.

#[global] Instance result_ret : MRet result := λ A, Return.
#[global] Instance result_bind : MBind result := λ A B k r,
  match r with
  | Return a => k a
  | Raise e => Raise e
  end.

(** [type(v).__name__] *)
Definition type_name (v : pyval) : string :=
  match v with
  | PyNone => "NoneType"
  | PyBool _ => "bool"
  | PyInt _ => "int"
  | PyFloat _ => "float"
  | PyStr _ => "str"
  | PyList _ => "list"
  | PyDict _ => "dict"
  end.

(** [bool(v)] *)
Definition truthy (v : pyval) : bool :=
  match v with
  | PyNone => false
  | PyBool b => b
  | PyInt n => negb (n =? 0)
  | PyFloat f => negb (SFeqb f (S754_zero false))
  | PyStr s => negb (String.eqb s "")
  | PyList l => match l with [] => false | _ => true end
  | PyDict d => match map_to_list d with [] => false | _ => true end
  end.

(** [sub in s] on strings *)
Fixpoint is_infix (sub s : string) : bool :=
  String.prefix sub s ||
  match s with
  | EmptyString => false
  | String _ s' => is_infix sub s'
  end.

Definition is_str (k : string) (v : pyval) : bool :=
  match v with
  | PyStr s => String.eqb s k
  | _ => false
  end.

(** [k in v] for a string literal [k] *)
Definition contains (k : string) (v : pyval) : result bool :=
  match v with
  | PyDict d => Return (bool_decide (is_Some (d !! k)))
  | PyStr s => Return (is_infix k s)
  | PyList l => Return (existsb (is_str k) l)
  | _ => Raise (TypeError
           ("argument of type '" ++ type_name v ++ "' is not iterable"))
  end.

(** [v[k]] for a string literal [k] *)
Definition getitem (k : string) (v : pyval) : result pyval :=
  match v with
  | PyDict d =>
      match d !! k with
      | Some x => Return x
      | None => Raise (KeyError ("'" ++ k ++ "'"))
      end
  | PyStr _ => Raise (TypeError "string indices must be integers, not 'str'")
  | PyList _ =>
      Raise (TypeError "list indices must be integers or slices, not str")
  | _ => Raise (TypeError
           ("'" ++ type_name v ++ "' object is not subscriptable"))
  end.

(** [v[0]]; the keys of a [PyDict] are strings, so [0] is never one of
    them. *)
Definition getitem0 (v : pyval) : result pyval :=
  match v with
  | PyList (x :: _) => Return x
  | PyList [] => Raise (IndexError "list index out of range")
  | PyStr (String a _) => Return (PyStr (String a EmptyString))
  | PyStr EmptyString => Raise (IndexError "string index out of range")
  | PyDict _ => Raise (KeyError "0")
  | _ => Raise (TypeError
           ("'" ++ type_name v ++ "' object is not subscriptable"))
  end.

(** [v.get(k, default)] *)
Definition get (k : string) (default : pyval) (v : pyval) : result pyval :=
  match v with
  | PyDict d => Return (match d !! k with Some x => x | None => default end)
  | _ => Raise (AttributeError
           ("'" ++ type_name v ++ "' object has no attribute 'get'"))
  end.

End Py.

Import Py.

(** The services of the Python runtime used on strings:
    - [is_url]: the verdict of the two [re] patterns of
      [music_player.is_url];
    - [strip]: [str.strip()];
    - [int_of_str]: [int(s)], [None] when it raises [ValueError]. *)
Class Runtime := {
  is_url : string → bool;
  strip : string → string;
  int_of_str : string → option Z
}.

(* ===================================================================== *)
(** ** music_player.py *)
(* ===================================================================== *)

(** The dictionary built at l.358-365: always these six keys. *)
Record song_info := {
  url : pyval;
  title : pyval;
  duration : pyval;
  webpage_url : pyval;
  thumbnail : pyval;
  requester : string
}.

(** What the voice client streams: the source made for a track, with the
    [volume] attribute when one has been assigned. *)
Record audio_source := {
  src_song : song_info;
  src_volume : option spec_float
}.

(** [discord.VoiceClient], as far as the player uses it: [is_connected()],
    [is_playing()] and the [source] property. *)
Record VoiceClient := {
  connected : bool;
  source : option audio_source;
  playing : bool
}.

(** Calls handed to [bot.loop.call_soon_threadsafe]; they run in order,
    one per turn of the event loop. *)
Inductive callback :=
| CbSongFinished        (* self._song_finished(e), from the [after] hook *)
| CbNextSet.            (* self.next.set *)

(** Where the task [player_loop] is suspended. *)
Inductive pc :=
| AtTop                 (* created, not yet run: woken, it enters the loop *)
| AtWaitEmpty           (* l.251-252: next.wait() under timeout(300) *)
| AtStart               (* l.270 / l.283: resolving the popped track *)
| AtWaitNext.           (* l.309: next.wait() *)

(** [self.audio_player] *)
Inductive task :=
| Running (at_ : pc)
| Cancelled.

Record MusicPlayer := {
  author : string;                    (* self.ctx.author.name *)
  queue : list song_info;
  current : option song_info;
  next : bool;                        (* asyncio.Event *)
  scheduled : list callback;
  audio_player : task;
  volume : spec_float
}.

(** A player together with [self.ctx.voice_client], the voice client of
    its guild ([None] when the bot is not in a voice channel there). *)
Record Session := {
  player : MusicPlayer;
  voice_client : option VoiceClient
}.

(** What a step shows to the outside: messages sent to the channel and the
    two log lines that carry a track. *)
Inductive output :=
| PlayingNextTrack (t : song_info)    (* l.260, the popped track *)
| AddedToQueue (t : song_info)        (* l.369 *)
| SendFallbackNotice                  (* l.298 *)
| SendNowPlaying (song_title : pyval) (* l.300 *)
| SendErrorPlaying (msg : string).    (* l.305 *)

(** The floats [0.0], [0.5] and [1.0]. *)
Definition float_zero : spec_float := S754_zero false.
Definition float_half : spec_float := S754_finite false 4503599627370496 (-53).
Definition float_one : spec_float := S754_finite false 4503599627370496 (-52).

(** The builtins [min(a, b)] and [max(a, b)]: the first argument unless the
    second is strictly smaller (greater). *)
Definition py_min (a b : spec_float) : spec_float := if SFltb b a then b else a.
Definition py_max (a b : spec_float) : spec_float := if SFltb a b then b else a.

(** [0.0 <= v <= 1.0] *)
Definition in_unit (v : spec_float) : bool := SFleb float_zero v && SFleb v float_one.

(** *** Setters *)

Definition with_queue (q : list song_info) (p : MusicPlayer) : MusicPlayer :=
  {| author := author p; queue := q; current := current p; next := next p;
     scheduled := scheduled p; audio_player := audio_player p;
     volume := volume p |}.

Definition with_current (c : option song_info) (p : MusicPlayer) : MusicPlayer :=
  {| author := author p; queue := queue p; current := c; next := next p;
     scheduled := scheduled p; audio_player := audio_player p;
     volume := volume p |}.

Definition with_next (b : bool) (p : MusicPlayer) : MusicPlayer :=
  {| author := author p; queue := queue p; current := current p; next := b;
     scheduled := scheduled p; audio_player := audio_player p;
     volume := volume p |}.

Definition with_scheduled (cs : list callback) (p : MusicPlayer) : MusicPlayer :=
  {| author := author p; queue := queue p; current := current p;
     next := next p; scheduled := cs; audio_player := audio_player p;
     volume := volume p |}.

Definition with_task (t : task) (p : MusicPlayer) : MusicPlayer :=
  {| author := author p; queue := queue p; current := current p;
     next := next p; scheduled := scheduled p; audio_player := t;
     volume := volume p |}.

Definition with_volume (v : spec_float) (p : MusicPlayer) : MusicPlayer :=
  {| author := author p; queue := queue p; current := current p;
     next := next p; scheduled := scheduled p;
     audio_player := audio_player p; volume := v |}.

Definition on_player (f : MusicPlayer → MusicPlayer) (s : Session) : Session :=
  {| player := f (player s); voice_client := voice_client s |}.

(** [MusicPlayer.__init__] (l.229-237) *)
Definition new_player (ctx_author : string) : MusicPlayer :=
  {| author := ctx_author; queue := []; current := None; next := false;
     scheduled := []; audio_player := Running AtTop; volume := float_half |}.

(** [self.ctx.voice_client.is_playing()] guarded by
    [self.ctx.voice_client and ...] *)
Definition is_playing (s : Session) : bool :=
  match voice_client s with
  | Some vc => playing vc
  | None => false
  end.

(** *** The voice client *)

(** [VoiceClient.stop()]: the player thread is dropped; if it was still
    streaming, its [after] hook runs, which hands [_song_finished] to the
    loop (l.275, l.295). *)
Definition vc_stop (vc : VoiceClient) (s : Session) : Session :=
  {| player :=
       if playing vc
       then with_scheduled (scheduled (player s) ++ [CbSongFinished]) (player s)
       else player s;
     voice_client :=
       Some {| connected := connected vc; source := None; playing := false |} |}.

(** [VoiceClient.play(source, after=...)]: refused when the client is not
    connected or is already playing. *)
Definition vc_play (src : audio_source) (vc : VoiceClient) : result VoiceClient :=
  if negb (connected vc) then Raise (Exception "Not connected to voice.")
  else if playing vc then Raise (Exception "Already playing audio.")
  else Return {| connected := connected vc; source := Some src;
                 playing := true |}.

(** [await VoiceClient.disconnect()]: stops the stream and detaches the
    client from its guild. *)
Definition vc_disconnect (vc : VoiceClient) (s : Session) : Session :=
  {| player := player (vc_stop vc s); voice_client := None |}.

(** *** [_song_finished] (l.316-321) *)
Definition song_finished (p : MusicPlayer) : MusicPlayer :=
  with_scheduled (scheduled p ++ [CbNextSet]) p.

(** One turn of the event loop on a scheduled call. *)
Definition run_callback (s : Session) : Session :=
  match scheduled (player s) with
  | [] => s
  | CbSongFinished :: cs => on_player (fun p => song_finished (with_scheduled cs p)) s
  | CbNextSet :: cs => on_player (fun p => with_next true (with_scheduled cs p)) s
  end.

(** The stream reaches its end by itself: the player thread stops and runs
    the [after] hook. *)
Definition stream_ends (s : Session) : Session :=
  match voice_client s with
  | Some vc =>
      if playing vc then
        {| player := with_scheduled (scheduled (player s) ++ [CbSongFinished])
                       (player s);
           voice_client := Some {| connected := connected vc;
                                   source := source vc; playing := false |} |}
      else s
  | None => s
  end.

(** *** [skip] (l.386-390), [stop] (l.392-397), [cleanup] (l.399-409),
        [set_volume] (l.411-416) *)

Definition skip (s : Session) : Session :=
  match voice_client s with
  | Some vc => if playing vc then vc_stop vc s else s
  | None => s
  end.

Definition stop (s : Session) : Session :=
  let s := on_player (with_queue []) s in
  match voice_client s with
  | Some vc => if playing vc then vc_stop vc s else s
  | None => s
  end.

(** [Task.cancel()]: the task never runs its own code again. *)
Definition cancel (t : task) : task := Cancelled.

Definition cleanup (s : Session) : Session :=
  let s := on_player (with_queue []) s in
  let s := match audio_player (player s) with
           | Cancelled => s
           | Running _ => on_player (with_task (cancel (audio_player (player s)))) s
           end in
  match voice_client s with
  | Some vc => vc_disconnect vc s
  | None => s
  end.

Definition set_source_volume (v : spec_float) (vc : VoiceClient) : VoiceClient :=
  match source vc with
  | Some src =>
      {| connected := connected vc;
         source := Some {| src_song := src_song src; src_volume := Some v |};
         playing := playing vc |}
  | None => vc
  end.

Definition set_volume (v : spec_float) (s : Session) : Session :=
  let vol := py_max float_zero (py_min float_one v) in
  {| player := with_volume vol (player s);
     voice_client := set_source_volume vol <$> voice_client s |}.

(** *** [add_to_queue] (l.323-384) *)

(** What [ytdl.extract_info(query, download=False)] does in the executor:
    it raises, with [str(e) = msg], or returns a value. *)
Inductive extract_result :=
| ExtractRaises (msg : string)
| ExtractReturns (data : pyval).

(** [s.replace(c, '')] for a one-character [c] *)
Fixpoint remove_char (c : ascii) (s : string) : string :=
  match s with
  | EmptyString => EmptyString
  | String a s' =>
      if Ascii.eqb a c then remove_char c s' else String a (remove_char c s')
  end.

(** l.329-332: the query handed to the resolver *)
Definition search_query {rt : Runtime} (query : string) : string :=
  if is_url query then query
  else "ytsearch:" ++ strip (remove_char ")" (remove_char "(" query)).

(** l.348-355 *)
Definition process_duration {rt : Runtime} (d : pyval) : pyval :=
  match d with
  | PyNone => PyInt 0
  | PyStr s =>
      match int_of_str s with
      | Some n => PyInt n
      | None => PyInt 0
      end
  | _ => d
  end.

(** l.336-345: the resolver's answer, reduced to its first entry when it
    has entries; an answer that is falsy finds nothing. *)
Definition select_entry (r : extract_result) : result pyval :=
  data ← match r with
         | ExtractRaises msg => Raise (Exception msg)
         | ExtractReturns data => Return data
         end;
  has_entries ← contains "entries" data;
  data ← (if has_entries : bool
          then entries ← getitem "entries" data; getitem0 entries
          else Return data);
  if negb (truthy data)
  then Raise (Exception "Could not find any matching songs.")
  else Return data.

(** l.347-365: the track dictionary. Nothing of the session is read but
    the requester's name. *)
Definition build_song_info {rt : Runtime} (ctx_author : string) (data : pyval)
  : result song_info :=
  d ← get "duration" PyNone data;
  page ← get "webpage_url" PyNone data;
  u ← get "url" page data;
  t ← get "title" (PyStr "Unknown title") data;
  page' ← get "webpage_url" PyNone data;
  thumb ← get "thumbnail" PyNone data;
  Return {| url := u; title := t; duration := process_duration d;
            webpage_url := page'; thumbnail := thumb;
            requester := ctx_author |}.

(** l.336-365 *)
Definition song_info_of {rt : Runtime} (ctx_author : string) (r : extract_result)
  : result song_info :=
  data ← select_entry r; build_song_info ctx_author data.

(** The two handlers of l.376-384, applied to [str(e)] of what the body
    raised. *)
Definition could_not_process (query msg : string) : string :=
  "Could not process " ++ query ++ ": " ++ msg.

Definition wrap_error (query : string) (e : pyexn) : pyexn :=
  let inner :=
    if is_infix "Sign in to confirm" (str_exn e)
       || is_infix "Please sign in" (str_exn e)
    then "YouTube requires authentication. Please check your cookies.txt file."
    else could_not_process query (str_exn e) in
  Exception (could_not_process query inner).

(** The whole call, as one step: its only suspension is the resolver call,
    before which nothing of the session is touched. *)
Definition add_to_queue {rt : Runtime} (query : string) (r : extract_result)
    (s : Session) : Session * result song_info * list output :=
  let query := search_query query in
  match song_info_of (author (player s)) r with
  | Raise e => (s, Raise (wrap_error query e), [])
  | Return t =>
      let s := on_player (with_queue (queue (player s) ++ [t])) s in
      match voice_client s with
      | None =>
          (s, Raise (wrap_error query (AttributeError
                 "'NoneType' object has no attribute 'is_playing'")),
           [AddedToQueue t])
      | Some vc =>
          (if playing vc then s else on_player (with_next true) s,
           Return t, [AddedToQueue t])
      end
  end.

(** *** [player_loop] (l.239-314) *)

(** How the attempt to open the popped track ends (l.262-296).
    [fallback] tells which path ran: the one with volume control
    ([YTDLSource.from_url], l.267-279) or, when opus is not loaded, the
    plain FFmpeg source (l.281-298). The resolver call of that path raises,
    or yields a source; [data_title] is the ['title'] of the extracted data
    when it has one. *)
Inductive start_outcome :=
| Resolved (fallback : bool) (data_title : option pyval)
| ResolveFailed (msg : string).

(** What resumes the suspended task. *)
Inductive resume_input :=
| Wake                          (* the awaited event is set *)
| TimedOut                       (* timeout(300) fires *)
| Start (o : start_outcome).    (* the resolver call finished *)

(** From [self.next.clear()] (l.244) to the next suspension. *)
Definition top (s : Session) : Session * list output :=
  let s := on_player (with_next false) s in
  match queue (player s) with
  | [] => (on_player (with_task (Running AtWaitEmpty)) s, [])
  | t :: q =>
      (on_player (fun p => with_task (Running AtStart)
                             (with_current (Some t) (with_queue q p))) s,
       [PlayingNextTrack t])
  end.

(** l.309: [Event.wait()] returns at once when the event is set. *)
Definition wait_next (s : Session) : Session * list output :=
  if next (player s) then top s
  else (on_player (with_task (Running AtWaitNext)) s, []).

(** Resumed at l.252 with the event set: l.258 onwards. *)
Definition after_wait_empty (s : Session) : Session * list output :=
  match queue (player s) with
  | [] => wait_next s
  | t :: q =>
      (on_player (fun p => with_task (Running AtStart)
                             (with_current (Some t) (with_queue q p))) s,
       [PlayingNextTrack t])
  end.

(** l.262-301: hand the source to the voice client. *)
Definition start_playback (o : start_outcome) (t : song_info) (s : Session)
  : result (Session * list output) :=
  match o with
  | ResolveFailed msg => Raise (Exception msg)
  | Resolved fallback data_title =>
      let song_title :=
        match data_title with
        | Some x => x
        | None => if fallback then title t else PyStr "Unknown title"
        end in
      let src := {| src_song := t;
                    src_volume := if fallback then None
                                  else Some (volume (player s)) |} in
      match voice_client s with
      | None => Raise (AttributeError
                  "'NoneType' object has no attribute 'play'")
      | Some vc =>
          vc' ← vc_play src vc;
          Return ({| player := player s; voice_client := Some vc' |},
                  ((if fallback then [SendFallbackNotice] else [])
                   ++ [SendNowPlaying song_title])%list)
      end
  end.

(** Resumed at l.270 / l.283 with the outcome of the resolver call. *)
Definition after_start (o : start_outcome) (s : Session)
  : Session * list output :=
  match current (player s) with
  | None => (s, [])
  | Some t =>
      match start_playback o t s with
      | Return (s', out) =>
          let '(s'', out') := wait_next s' in (s'', (out ++ out')%list)
      | Raise e =>
          (* l.303-307 *)
          let '(s', out') := top (on_player song_finished s) in
          (s', SendErrorPlaying (str_exn e) :: out')
      end
  end.

(** The task runs from where it is suspended to its next suspension. An
    input that does not fit the suspension point resumes nothing. *)
Definition player_loop (i : resume_input) (s : Session)
  : Session * list output :=
  match audio_player (player s) with
  | Cancelled => (s, [])
  | Running AtTop =>
      match i with
      | Wake => top s
      | _ => (s, [])
      end
  | Running AtWaitEmpty =>
      match i with
      | TimedOut => (cleanup s, [])
      | Wake => if next (player s) then after_wait_empty s else (s, [])
      | Start _ => (s, [])
      end
  | Running AtStart =>
      match i with
      | Start o => after_start o s
      | _ => (s, [])
      end
  | Running AtWaitNext =>
      match i with
      | Wake => if next (player s) then top s else (s, [])
      | _ => (s, [])
      end
  end.

(** *** The session as a machine *)

Inductive event :=
| AddToQueue (query : string) (r : extract_result)
| Skip
| Stop
| Cleanup
| SetVolume (v : spec_float)
| Loop (i : resume_input)       (* the player task is resumed *)
| Callback                      (* a scheduled call runs *)
| StreamEnds.                   (* the voice client finishes the stream *)

Definition step {rt : Runtime} (e : event) (s : Session) : Session * list output :=
  match e with
  | AddToQueue query r => let '(s', _, out) := add_to_queue query r s in (s', out)
  | Skip => (skip s, [])
  | Stop => (stop s, [])
  | Cleanup => (cleanup s, [])
  | SetVolume v => (set_volume v s, [])
  | Loop i => player_loop i s
  | Callback => (run_callback s, [])
  | StreamEnds => (stream_ends s, [])
  end.

Fixpoint run {rt : Runtime} (es : list event) (s : Session) : Session * list output :=
  match es with
  | [] => (s, [])
  | e :: es' =>
      let '(s1, out1) := step e s in
      let '(s2, out2) := run es' s1 in
      (s2, (out1 ++ out2)%list)
  end.

(** The tracks taken for playback, in order, and the tracks appended, in
    order, as a trace shows them. *)
Definition played (out : list output) : list song_info :=
  omap (fun o => match o with PlayingNextTrack t => Some t | _ => None end) out.

Definition appended (out : list output) : list song_info :=
  omap (fun o => match o with AddedToQueue t => Some t | _ => None end) out.

(* ===================================================================== *)
(** ** bot.py *)
(* ===================================================================== *)

(** What a command reads from its [ctx]. *)
Record CommandContext := {
  guild_id : Z;                       (* ctx.guild.id *)
  author_name : string                (* ctx.author.name *)
}.

(** The bot: the registry [self.music_players], the voice client of each
    guild ([ctx.voice_client]) and [stats["commands_used"]]. *)
Record Bot := {
  music_players : gmap Z MusicPlayer;
  voice_clients : gmap Z VoiceClient;
  commands_used : gmap string nat
}.

Inductive reply :=
| NothingToSkip                       (* l.309 *)
| SkippedCurrentSong                  (* l.313 *)
| NotInVoiceChannel                   (* l.408 *)
| LeftVoiceChannel                    (* l.416 *)
| FailedToLeave                       (* l.422 *)
| NothingIsPlaying                    (* l.378 *)
| NowPlayingEmbed (t : song_info).    (* l.381-396, the embed "Now Playing"
                                         made from get_track_info(t) *)

(** [_increment_command_usage] (l.452-456) *)
Definition increment_command_usage (name : string) (b : Bot) : Bot :=
  {| music_players := music_players b;
     voice_clients := voice_clients b;
     commands_used :=
       <[name := S (default 0%nat (commands_used b !! name))]> (commands_used b) |}.

(** The player registered for a guild, seen with the guild's voice
    client. *)
Definition session_of (g : Z) (p : MusicPlayer) (b : Bot) : Session :=
  {| player := p; voice_client := voice_clients b !! g |}.

(** Store back what a call on the session of guild [g] left. *)
Definition put_session (g : Z) (s : Session) (b : Bot) : Bot :=
  {| music_players := <[g := player s]> (music_players b);
     voice_clients :=
       match voice_client s with
       | Some vc => <[g := vc]> (voice_clients b)
       | None => delete g (voice_clients b)
       end;
     commands_used := commands_used b |}.

(** [get_player] (l.211-214) *)
Definition get_player (ctx : CommandContext) (b : Bot) : Bot * MusicPlayer :=
  match music_players b !! guild_id ctx with
  | Some p => (b, p)
  | None =>
      let p := new_player (author_name ctx) in
      ({| music_players := <[guild_id ctx := p]> (music_players b);
          voice_clients := voice_clients b;
          commands_used := commands_used b |}, p)
  end.

(** The command [skip] (l.302-316) *)
Definition cmd_skip (ctx : CommandContext) (b : Bot) : Bot * list reply :=
  let b := increment_command_usage "skip" b in
  match voice_clients b !! guild_id ctx with
  | None => (b, [NothingToSkip])
  | Some vc =>
      if negb (playing vc) then (b, [NothingToSkip])
      else
        let '(b, p) := get_player ctx b in
        (put_session (guild_id ctx) (skip (session_of (guild_id ctx) p b)) b,
         [SkippedCurrentSong])
  end.

(** The command [nowplaying] (l.370-399) *)
Definition cmd_nowplaying (ctx : CommandContext) (b : Bot) : Bot * list reply :=
  let b := increment_command_usage "nowplaying" b in
  let '(b, p) := get_player ctx b in
  match current p with
  | None => (b, [NothingIsPlaying])
  | Some t => (b, [NowPlayingEmbed t])
  end.

(** The command [leave] (l.401-422). After [player.cleanup()] has
    disconnected the voice client, [ctx.voice_client] is [None] and the
    call of l.415 raises; the handler of l.420 answers. *)
Definition cmd_leave (ctx : CommandContext) (b : Bot) : Bot * list reply :=
  let b := increment_command_usage "leave" b in
  let g := guild_id ctx in
  match voice_clients b !! g with
  | None => (b, [NotInVoiceChannel])
  | Some _ =>
      let b :=
        match music_players b !! g with
        | Some p =>
            let b := put_session g (cleanup (session_of g p b)) b in
            {| music_players := delete g (music_players b);
               voice_clients := voice_clients b;
               commands_used := commands_used b |}
        | None => b
        end in
      match voice_clients b !! g with
      | None => (b, [FailedToLeave])
      | Some _ =>
          ({| music_players := music_players b;
              voice_clients := delete g (voice_clients b);
              commands_used := commands_used b |}, [LeftVoiceChannel])
      end
  end.

(** [check_voice_connections] (l.75-94), the sweep that runs every
    minute: players whose guild has no connected voice client are cleaned
    up and dropped from the registry. *)
Definition sweep_one (b : Bot) (entry : Z * MusicPlayer) : Bot :=
  let '(g, p) := entry in
  let lost := match voice_clients b !! g with
              | Some vc => negb (connected vc)
              | None => true
              end in
  if lost then
    let b := put_session g (cleanup (session_of g p b)) b in
    {| music_players := delete g (music_players b);
       voice_clients := voice_clients b;
       commands_used := commands_used b |}
  else b.

Definition check_voice_connections (b : Bot) : Bot :=
  foldl sweep_one b (map_to_list (music_players b)).

(** An event of the session machine reaches the player registered for
    guild [g]. *)
Definition deliver {rt : Runtime} (g : Z) (e : event) (b : Bot) : Bot * list output :=
  match music_players b !! g with
  | None => (b, [])
  | Some p =>
      let '(s, out) := step e (session_of g p b) in
      (put_session g s b, out)
  end.

(* ===================================================================== *)
(** ** The rest of the code

    The sections that follow embed what the playback session leaves out:
    utils.py, the other commands of bot.py with its reconnection
    counters, and of music_player.py the start-up helpers, [YTDLSource]
    and the two patterns of [is_url]. What the code reads from Discord,
    from the file system or from yt-dlp is an argument of the function
    that reads it. *)
(* ===================================================================== *)

(* ===================================================================== *)
(** ** More of Python: exception classes, [str] and format of integers *)
(* ===================================================================== *)

(** The exceptions of the rest of the code: the classes of [Py], and
    beside them [ValueError], [OverflowError], yt-dlp's [ExtractorError]
    (with its subclasses) and any other subclass of [Exception]. *)
Inductive pyerror :=
| Builtin (e : pyexn)
| ValueError (msg : string)
| OverflowError (msg : string)
| ExtractorError (msg : string)
| OtherError (msg : string).

(** [str(e)] *)
Definition str_error (e : pyerror) : string :=
  match e with
  | Builtin e => str_exn e
  | ValueError m | OverflowError m | ExtractorError m | OtherError m => m
  end.

(** What a call does: it returns a value or raises an exception. *)
Inductive outcome (A : Type) :=
| Returns (a : A)
| Raises (e : pyerror).
Arguments Returns {A} a.
Arguments Raises {A} e.

#[global] Instance outcome_ret : MRet outcome := λ A, Returns.
#[global] Instance outcome_bind : MBind outcome := λ A B k r,
  match r with
  | Returns a => k a
  | Raises e => Raises e
  end.

(** A result of [Py] as an outcome. *)
Definition of_result {A} (r : result A) : outcome A :=
  match r with
  | Return a => Returns a
  | Raise e => Raises (Builtin e)
  end.

(** [str(n)] for an int *)
Definition str_of_int (n : Z) : string :=
  DecimalString.NilZero.string_of_int (Z.to_int n).

(** [f"{n:02d}"]: the sign counts for the width. *)
Definition format_02d (n : Z) : string :=
  let s := str_of_int n in
  if (String.length s <? 2)%nat then "0" ++ s else s.

(* ===================================================================== *)
(** ** utils.py *)
(* ===================================================================== *)

(** [format_duration] (l.6-17) on an int that is not zero: l.11-17. [//]
    and [%] round towards minus infinity, as [Z.div] and [Z.modulo] do. *)
Definition format_clock (duration : Z) : string :=
  let hours := duration / 3600 in
  let minutes := (duration mod 3600) / 60 in
  let seconds := duration mod 60 in
  if 0 <? hours
  then format_02d hours ++ ":" ++ format_02d minutes ++ ":" ++ format_02d seconds
  else format_02d minutes ++ ":" ++ format_02d seconds.

(** [format_duration] (l.6-17) on any value. A [bool] is an int. The
    arithmetic of l.11-13 raises on what is not a number; on a float it
    yields floats, which the format code [d] of l.16-17 refuses. *)
Definition format_duration (duration : pyval) : outcome string :=
  if negb (truthy duration) then Returns "00:00"
  else match duration with
       | PyInt n => Returns (format_clock n)
       | PyBool b => Returns (format_clock (if b then 1 else 0))
       | PyFloat _ =>
           Raises (ValueError "Unknown format code 'd' for object of type 'float'")
       | v =>
           Raises (Builtin (TypeError
             ("unsupported operand type(s) for //: '" ++ type_name v
              ++ "' and 'int'")))
       end.

(** The dictionary that [get_track_info] returns: always these five
    keys. *)
Record track_info := {
  info_title : pyval;
  info_duration : pyval;
  info_requester : pyval;
  info_thumbnail : pyval;
  info_webpage_url : pyval
}.

(** What [get_track_info] returns when it fails (l.31-37). *)
Definition unknown_track : track_info :=
  {| info_title := PyStr "Unknown track"; info_duration := PyStr "00:00";
     info_requester := PyStr "Unknown"; info_thumbnail := PyNone;
     info_webpage_url := PyNone |}.

(** [get_track_info] (l.19-37) *)
Definition get_track_info (track : pyval) : track_info :=
  let formatted : outcome track_info :=
    t ← of_result (get "title" (PyStr "Unknown title") track);
    d ← of_result (get "duration" (PyInt 0) track);
    d ← format_duration d;
    r ← of_result (get "requester" (PyStr "Unknown") track);
    thumb ← of_result (get "thumbnail" PyNone track);
    page ← of_result (get "webpage_url" PyNone track);
    Returns {| info_title := t; info_duration := PyStr d; info_requester := r;
               info_thumbnail := thumb; info_webpage_url := page |} in
  match formatted with
  | Returns info => info
  | Raises _ => unknown_track
  end.

(** The dictionary of l.358-365 of music_player.py, as the dictionary it
    is. *)
Definition song_info_map (t : song_info) : gmap string pyval :=
  list_to_map
    [("url", url t); ("title", title t); ("duration", duration t);
     ("webpage_url", webpage_url t); ("thumbnail", thumbnail t);
     ("requester", PyStr (requester t))].

Definition song_info_dict (t : song_info) : pyval := PyDict (song_info_map t).

(* ===================================================================== *)
(** ** bot.py: the other commands *)
(* ===================================================================== *)

(** The counters of the global [stats] beside [commands_used], which
    [Bot] carries. *)
Record Stats := {
  play_count : nat;
  error_count : nat;                  (* stats["errors"] *)
  reconnections : nat
}.

(** What a command reads about the voice channel of its author:
    [ctx.author.voice.channel], compared with the channel of the bot's
    voice client, and the bot's permissions there. *)
Record VoiceState := {
  channel_name : string;
  same_channel : bool;   (* ctx.voice_client.channel == ctx.author.voice.channel *)
  may_connect : bool;                 (* permissions.connect *)
  may_speak : bool                    (* permissions.speak *)
}.

(** How [channel.connect(timeout=60.0, reconnect=True)] ends. *)
Inductive connect_outcome :=
| Connected
| ConnectTimedOut                     (* asyncio.TimeoutError *)
| ConnectFailed.                      (* any other exception *)

(** One row of the queue display: [**title** (duration)]. *)
Record queue_row := {
  row_title : pyval;
  row_duration : string
}.

(** The messages of the commands [join], [play], [stop], [queue] and
    [volume]. *)
Inductive message :=
| NeedVoiceChannel                    (* l.223, l.259 *)
| AlreadyInYourChannel                (* l.227 *)
| MovedTo (name : string)             (* l.229 *)
| NoPermissionToJoin                  (* l.233 *)
| Joined (name : string)              (* l.238 *)
| JoinTimedOut                        (* l.244 *)
| FailedToJoin                        (* l.247 *)
| CouldNotJoin                        (* l.250 *)
| CouldNotConnect                     (* l.265 *)
| Searching (for_url : bool) (query : string)
                                      (* l.271: "URLing for" / "searching for" *)
| AddedToQueueReply (song_title : pyval) (formatted : string)   (* l.278 *)
| CouldNotAddSong (msg : string)      (* l.281 *)
| NotPlayingAnything                  (* l.293 *)
| StoppedAndCleared                   (* l.297 *)
| QueueIsEmpty                        (* l.326 *)
| QueueEmbed (now_playing : option queue_row) (up_next : list queue_row)
             (remaining : nat)        (* l.328-346 *)
| FailedToDisplayQueue                (* l.349 *)
| NotCurrentlyPlaying                 (* l.358 *)
| VolumeOutOfRange                    (* l.361 *)
| VolumeSetTo (percent : Z).          (* l.365 *)

(** The voice client that a successful [connect] leaves in the guild. *)
Definition connected_client : VoiceClient :=
  {| connected := true; source := None; playing := false |}.

(** The command [join] (l.216-250). [moves] tells whether [move_to]
    returns. *)
Definition cmd_join (ctx : CommandContext) (voice : option VoiceState)
    (moves : bool) (c : connect_outcome) (b : Bot) : Bot * list message :=
  let b := increment_command_usage "join" b in
  match voice with
  | None => (b, [NeedVoiceChannel])
  | Some v =>
      match voice_clients b !! guild_id ctx with
      | Some _ =>
          if same_channel v then (b, [AlreadyInYourChannel])
          else if moves then (b, [MovedTo (channel_name v)])
          else (b, [CouldNotJoin])
      | None =>
          if negb (may_connect v) || negb (may_speak v)
          then (b, [NoPermissionToJoin])
          else match c with
               | Connected =>
                   ({| music_players := music_players b;
                       voice_clients :=
                         <[guild_id ctx := connected_client]> (voice_clients b);
                       commands_used := commands_used b |},
                    [Joined (channel_name v)])
               | ConnectTimedOut => (b, [JoinTimedOut])
               | ConnectFailed => (b, [FailedToJoin])
               end
      end
  end.

(** The command [play] (l.252-284) up to its call of [add_to_queue]
    (l.255-271). The flag tells whether the call is made. *)
Definition play_begin {rt : Runtime} (ctx : CommandContext)
    (voice : option VoiceState) (c : connect_outcome) (query : string)
    (b : Bot) : Bot * list message * bool :=
  let b := increment_command_usage "play" b in
  match voice with
  | None => (b, [NeedVoiceChannel], false)
  | Some _ =>
      let '(b, out) :=
        match voice_clients b !! guild_id ctx with
        | Some _ => (b, [])
        | None => cmd_join ctx voice true c b
        end in
      match voice_clients b !! guild_id ctx with
      | None => (b, (out ++ [CouldNotConnect])%list, false)
      | Some _ =>
          let '(b, _) := get_player ctx b in
          (b, (out ++ [Searching (is_url query) query])%list, true)
      end
  end.

(** The command [play] from the return of the resolver call on (l.272-281).
    The player that the command holds is the one [play_begin] got from
    [get_player]; it is read here from the registry, so the step is
    defined as long as that player is still registered for the guild. *)
Definition play_finish {rt : Runtime} (ctx : CommandContext) (query : string)
    (r : extract_result) (b : Bot) (st : Stats)
  : option (Bot * Stats * list message) :=
  p ← music_players b !! guild_id ctx;
  let '(s, res, _) := add_to_queue query r (session_of (guild_id ctx) p b) in
  let b := put_session (guild_id ctx) s b in
  Some
    match res with
    | Raise e => (b, st, [CouldNotAddSong (str_exn e)])
    | Return t =>
        let st := {| play_count := S (play_count st);
                     error_count := error_count st;
                     reconnections := reconnections st |} in
        match format_duration (duration t) with
        | Returns d => (b, st, [AddedToQueueReply (title t) d])
        | Raises e => (b, st, [CouldNotAddSong (str_error e)])
        end
    end.

(** The command [stop] (l.286-300) *)
Definition cmd_stop (ctx : CommandContext) (b : Bot) : Bot * list message :=
  let b := increment_command_usage "stop" b in
  match voice_clients b !! guild_id ctx with
  | None => (b, [NotPlayingAnything])
  | Some _ =>
      let '(b, p) := get_player ctx b in
      (put_session (guild_id ctx) (stop (session_of (guild_id ctx) p b)) b,
       [StoppedAndCleared])
  end.

(** One row of the display (l.333, l.339) *)
Definition queue_row_of (t : song_info) : outcome queue_row :=
  d ← format_duration (duration t);
  Returns {| row_title := title t; row_duration := d |}.

(** The rows of a list of tracks, in order; the first failure ends it. *)
Fixpoint queue_rows (ts : list song_info) : outcome (list queue_row) :=
  match ts with
  | [] => Returns []
  | t :: ts' =>
      row ← queue_row_of t;
      rows ← queue_rows ts';
      Returns (row :: rows)
  end.

(** The embed of l.328-344: the track in the current slot, the first ten
    queued tracks and the number of those not shown. *)
Definition queue_embed (p : MusicPlayer) : outcome message :=
  now ← match current p with
        | Some t => row ← queue_row_of t; Returns (Some row)
        | None => Returns None
        end;
  rows ← queue_rows (take 10 (queue p));
  Returns (QueueEmbed now rows
             (if (10 <? length (queue p))%nat
              then (length (queue p) - 10)%nat else 0%nat)).

(** The command [queue] (l.318-349) *)
Definition cmd_queue (ctx : CommandContext) (b : Bot) : Bot * list message :=
  let b := increment_command_usage "queue" b in
  let '(b, p) := get_player ctx b in
  match queue p, current p with
  | [], None => (b, [QueueIsEmpty])
  | _, _ =>
      match queue_embed p with
      | Returns m => (b, [m])
      | Raises _ => (b, [FailedToDisplayQueue])
      end
  end.

(** [float(n)] for an int *)
Definition float_of_int (n : Z) : spec_float :=
  binary_normalize 53 1024 n 0 false.

(** [a / b] on ints that floats hold exactly, as those of the command
    [volume] are: the quotient of the two floats. *)
Definition true_divide (a b : Z) : spec_float :=
  SFdiv 53 1024 (float_of_int a) (float_of_int b).

(** The command [volume] (l.351-368) *)
Definition cmd_volume (ctx : CommandContext) (volume : Z) (b : Bot)
  : Bot * list message :=
  let b := increment_command_usage "volume" b in
  match voice_clients b !! guild_id ctx with
  | None => (b, [NotCurrentlyPlaying])
  | Some _ =>
      if negb ((0 <=? volume) && (volume <=? 100))
      then (b, [VolumeOutOfRange])
      else
        let '(b, p) := get_player ctx b in
        (put_session (guild_id ctx)
           (set_volume (true_divide volume 100) (session_of (guild_id ctx) p b)) b,
         [VolumeSetTo volume])
  end.

(** The embed of the command [nowplaying] (l.380-394): description,
    the fields "Duration" and "Requested by", and the field "Source" and
    the thumbnail when the track has them. *)
Record now_playing := {
  np_description : pyval;
  np_duration : pyval;
  np_requested_by : pyval;
  np_source : option pyval;
  np_thumbnail : option pyval
}.

Definition nowplaying_embed (t : song_info) : now_playing :=
  let track_info := get_track_info (song_info_dict t) in
  {| np_description := info_title track_info;
     np_duration := info_duration track_info;
     np_requested_by := info_requester track_info;
     np_source := if truthy (info_webpage_url track_info)
                  then Some (info_webpage_url track_info) else None;
     np_thumbnail := if truthy (info_thumbnail track_info)
                     then Some (info_thumbnail track_info) else None |}.

(** [get_uptime] (l.459-464) from l.462 on, for the whole seconds since
    the start. *)
Definition get_uptime (uptime_seconds : Z) : string :=
  let hours := uptime_seconds / 3600 in
  let remainder := uptime_seconds mod 3600 in
  let minutes := remainder / 60 in
  let seconds := remainder mod 60 in
  format_02d hours ++ ":" ++ format_02d minutes ++ ":" ++ format_02d seconds.

(* ===================================================================== *)
(** ** bot.py: reconnection *)
(* ===================================================================== *)

(** The three attributes of [RadioFMBot] that [heartbeat] and
    [on_disconnect] use. *)
Record Connection := {
  reconnect_attempts : Z;
  max_reconnect_attempts : Z;
  reconnect_delay : Z
}.

(** [RadioFMBot.__init__] (l.41-43) *)
Definition new_connection : Connection :=
  {| reconnect_attempts := 0; max_reconnect_attempts := 5;
     reconnect_delay := 5 |}.

(** [heartbeat] (l.61-73) *)
Definition heartbeat (c : Connection) : Connection :=
  {| reconnect_attempts := 0;
     max_reconnect_attempts := max_reconnect_attempts c;
     reconnect_delay := 5 |}.

(** What [on_disconnect] decides: to sleep [delay] seconds and connect
    again, or to report the bot offline. *)
Inductive reconnect :=
| RetryAfter (delay : Z)
| GiveUp.

(** [on_disconnect] (l.161-188). The exponent of l.174 is not negative in
    any state that [__init__], [heartbeat] and [on_disconnect] reach. *)
Definition on_disconnect (c : Connection) (st : Stats)
  : Connection * Stats * reconnect :=
  let c := {| reconnect_attempts := reconnect_attempts c + 1;
              max_reconnect_attempts := max_reconnect_attempts c;
              reconnect_delay := reconnect_delay c |} in
  let st := {| play_count := play_count st; error_count := error_count st;
               reconnections := S (reconnections st) |} in
  if reconnect_attempts c <=? max_reconnect_attempts c
  then (c, st,
        RetryAfter (Z.min 300
                      (reconnect_delay c * 2 ^ (reconnect_attempts c - 1))))
  else (c, st, GiveUp).

(** The two events of the connection. *)
Inductive net_event :=
| Heartbeat
| Disconnect.

Definition net_step (e : net_event) (x : Connection * Stats)
  : Connection * Stats * list reconnect :=
  match e with
  | Heartbeat => (heartbeat x.1, x.2, [])
  | Disconnect => let '(c, st, r) := on_disconnect x.1 x.2 in (c, st, [r])
  end.

Fixpoint net_run (es : list net_event) (x : Connection * Stats)
  : Connection * Stats * list reconnect :=
  match es with
  | [] => (x, [])
  | e :: es' =>
      let '(x1, out1) := net_step e x in
      let '(x2, out2) := net_run es' x1 in
      (x2, (out1 ++ out2)%list)
  end.

(* ===================================================================== *)
(** ** music_player.py: start-up *)
(* ===================================================================== *)

(** [find_ffmpeg_path] (l.20-48). The file system is read through
    [nix_paths], what [glob.glob] finds in the Nix store (nothing when it
    raises), [which], the answer of [shutil.which('ffmpeg')], and
    [path_exists], the verdict of [os.path.exists]. *)
Definition find_ffmpeg_path (nix_paths : list string) (which : option string)
    (path_exists : string → bool) : string :=
  let ffmpeg_paths := ["/usr/bin/ffmpeg"; "/usr/local/bin/ffmpeg"; "ffmpeg"] in
  let ffmpeg_paths := (ffmpeg_paths ++ nix_paths)%list in
  let ffmpeg_paths :=
    match which with
    | Some w => if String.eqb w "" then ffmpeg_paths
                else (ffmpeg_paths ++ [w])%list
    | None => ffmpeg_paths
    end in
  match find path_exists ffmpeg_paths with
  | Some path => path
  | None => "ffmpeg"
  end.

(** What [setup_hook] of bot.py reports (l.56-59) for the path that
    [__init__] stored (l.45). *)
Definition ffmpeg_status (ffmpeg_path : string) : string :=
  if negb (String.eqb ffmpeg_path "") then "available" else "not_found".

(** [try_load_opus] (l.58-76): the result, and the libraries that it
    tried, in order. [loads] tells whether [discord.opus.load_opus]
    returns for a name. *)
Fixpoint load_first (loads : string → bool) (libs : list string)
  : bool * list string :=
  match libs with
  | [] => (false, [])
  | lib :: libs' =>
      if loads lib then (true, [lib])
      else let '(ok, tried) := load_first loads libs' in (ok, lib :: tried)
  end.

Definition opus_libs : list string :=
  ["libopus.so.0"; "libopus.so.1"; "libopus.0.dylib"; "libopus.dylib"; "opus"].

Definition try_load_opus (is_loaded : bool) (loads : string → bool)
  : bool * list string :=
  if is_loaded then (true, []) else load_first loads opus_libs.

(* ===================================================================== *)
(** ** music_player.py: [YTDLSource] *)
(* ===================================================================== *)

(** [int(f)] for a float: the integer part, none for NaN and the
    infinities. *)
Definition float_trunc (f : spec_float) : option Z :=
  match f with
  | S754_zero _ => Some 0
  | S754_finite s m e =>
      let v := if 0 <=? e then Z.pos m * 2 ^ e else Z.pos m / 2 ^ (- e) in
      Some (if s then - v else v)
  | _ => None
  end.

(** [int(v)]. [repr] is Python's [repr] on strings, for the message of
    the literal that [int] refuses. *)
Definition py_int {rt : Runtime} (repr : string → string) (v : pyval)
  : outcome Z :=
  match v with
  | PyInt n => Returns n
  | PyBool b => Returns (if b then 1 else 0)
  | PyFloat f =>
      match float_trunc f with
      | Some n => Returns n
      | None =>
          match f with
          | S754_nan => Raises (ValueError "cannot convert float NaN to integer")
          | _ => Raises (OverflowError "cannot convert float infinity to integer")
          end
      end
  | PyStr s =>
      match int_of_str s with
      | Some n => Returns n
      | None => Raises (ValueError
                  ("invalid literal for int() with base 10: " ++ repr s))
      end
  | _ => Raises (Builtin (TypeError
           ("int() argument must be a string, a bytes-like object or a real number, not '"
            ++ type_name v ++ "'")))
  end.

(** The attributes that [YTDLSource.__init__] sets (l.102-109). *)
Record YTDLSource := {
  yt_data : pyval;
  yt_title : pyval;
  yt_url : pyval;
  yt_duration : Z;
  yt_thumbnail : pyval;
  yt_webpage_url : pyval;
  yt_volume : spec_float
}.

(** [YTDLSource.__init__] (l.102-109), with the default volume. *)
Definition ytdl_source_init {rt : Runtime} (repr : string → string)
    (data : pyval) : outcome YTDLSource :=
  t ← of_result (get "title" (PyStr "Unknown title") data);
  u ← of_result (get "url" (PyStr "Unknown URL") data);
  d ← of_result (get "duration" (PyInt 0) data);
  d ← py_int repr d;
  thumb ← of_result (get "thumbnail" PyNone data);
  page ← of_result (get "webpage_url" PyNone data);
  Returns {| yt_data := data; yt_title := t; yt_url := u; yt_duration := d;
             yt_thumbnail := thumb; yt_webpage_url := page;
             yt_volume := float_half |}.

(** What a call of [extract_info] does: it raises or returns a value. *)
Inductive attempt :=
| AttemptRaises (e : pyerror)
| AttemptReturns (data : pyval).

Definition attempt_outcome (a : attempt) : outcome pyval :=
  match a with
  | AttemptRaises e => Raises e
  | AttemptReturns data => Returns data
  end.

(** What [from_url] reads of the world: the three resolvers (the standard
    one, the one without geo-bypass of l.139-144, the one with the local
    cookie file of l.194-201), the constructor of the FFmpeg source, and
    the cookie files. *)
Record Resolver := {
  extract : string → attempt;
  extract_plain : string → attempt;
  extract_with_cookies : string → attempt;
  ffmpeg_audio : pyval → result unit;   (* discord.FFmpegPCMAudio(filename, ...) *)
  cookiefile : option string;  (* ytdl_format_options.get('cookiefile', ...) *)
  local_cookie : string;       (* os.path.join(os.getcwd(), 'cookies.txt') *)
  file_exists : string → bool;          (* os.path.exists *)
  file_size : string → Z                (* os.path.getsize *)
}.

(** l.153-154, l.203-204 *)
Definition first_entry (data : pyval) : outcome pyval :=
  has_entries ← of_result (contains "entries" data);
  if has_entries : bool
  then entries ← of_result (getitem "entries" data);
       of_result (getitem0 entries)
  else Returns data.

(** l.160-165, l.208-210 *)
Definition make_source {rt : Runtime} (repr : string → string)
    (w : Resolver) (data : pyval) : outcome YTDLSource :=
  filename ← of_result (getitem "url" data);
  _ ← of_result (ffmpeg_audio w filename);
  ytdl_source_init repr data.

(** l.126-150: the first attempt, and the second when the first gave
    nothing. *)
Definition extract_twice (w : Resolver) (url : string) : outcome pyval :=
  let '(data, error_msg) :=
    match extract w url with
    | AttemptReturns data => (data, None)
    | AttemptRaises e => (PyNone, Some (str_error e))
    end in
  if negb (truthy data)
  then match extract_plain w url with
       | AttemptReturns data => Returns data
       | AttemptRaises e =>
           match error_msg with
           | Some msg =>
               if negb (String.eqb msg "") then Raises (Builtin (Exception msg))
               else Raises e
           | None => Raises e
           end
       end
  else Returns data.

(** l.124-165 *)
Definition from_url_body {rt : Runtime} (repr : string → string)
    (w : Resolver) (url : string) : outcome YTDLSource :=
  data ← extract_twice w url;
  data ← first_entry data;
  if negb (truthy data)
  then Raises (Builtin (Exception "Could not find any matching songs."))
  else make_source repr w data.

(** l.191-212: the attempt with the local cookie file; whatever it
    raises is logged and dropped. *)
Definition with_local_cookie {rt : Runtime} (repr : string → string)
    (w : Resolver) (url : string) : option YTDLSource :=
  if file_exists w (local_cookie w) && (0 <? file_size w (local_cookie w))
  then
    match (data ← attempt_outcome (extract_with_cookies w url);
           data ← first_entry data;
           if truthy data then src ← make_source repr w data; Returns (Some src)
           else Returns None) with
    | Returns (Some src) => Some src
    | _ => None
    end
  else None.

(** The handler of l.166-223 *)
Definition on_extractor_error {rt : Runtime} (repr : string → string)
    (w : Resolver) (url : string) (error_msg : string) : outcome YTDLSource :=
  if is_infix "Sign in to confirm" error_msg
     || is_infix "Please sign in" error_msg
  then
    let cookie_exists :=
      match cookiefile w with
      | Some path => negb (String.eqb path "") && file_exists w path
      | None => false
      end in
    match with_local_cookie repr w url with
    | Some src => Returns src
    | None =>
        if negb cookie_exists
        then Raises (Builtin (Exception
               "Cookies file not found. Please add a valid cookies.txt file."))
        else if file_size w (default "" (cookiefile w)) =? 0
        then Raises (Builtin (Exception
               "Cookies file is empty. Please add valid cookies."))
        else Raises (Builtin (Exception
               "YouTube requires authentication. Your cookies might be expired or invalid. Try exporting new cookies from Opera GX."))
    end
  else Raises (ExtractorError error_msg).

(** [YTDLSource.from_url] (l.111-226). A [url] that is not a string makes
    [is_url] raise at l.117. *)
Definition from_url {rt : Runtime} (repr : string → string) (w : Resolver)
    (url : pyval) : outcome YTDLSource :=
  match url with
  | PyStr url =>
      let url := if negb (is_url url) then "ytsearch:" ++ url else url in
      match from_url_body repr w url with
      | Raises (ExtractorError error_msg) =>
          on_extractor_error repr w url error_msg
      | r => r
      end
  | _ => Raises (Builtin (TypeError
           ("expected string or bytes-like object, got '" ++ type_name url
            ++ "'")))
  end.

(** How the call of l.270 resumes the loop: with the source's title, or
    with the text of what was raised. *)
Definition start_outcome_of (r : outcome YTDLSource) : start_outcome :=
  match r with
  | Returns src => Resolved false (Some (yt_title src))
  | Raises e => ResolveFailed (str_error e)
  end.

(* ===================================================================== *)
(** ** music_player.py: the patterns of [is_url] *)
(* ===================================================================== *)

(** Python's [re] on the two patterns of [is_url] (l.85-99), for text of
    ASCII characters. Neither pattern has groups to report or
    backreferences, so whether [match] succeeds is whether a prefix of the
    text is in the language of the pattern; the matcher below decides it
    with derivatives. Under [re.IGNORECASE] a letter of the pattern matches
    both cases, on ASCII text. *)
Module Re.

Inductive regex :=
| Never                               (* no text *)
| Empty                               (* the empty text *)
| Chars (p : ascii → bool)            (* one character of a class *)
| Seq (r1 r2 : regex)
| Alt (r1 r2 : regex)
| Star (r : regex).

Fixpoint nullable (r : regex) : bool :=
  match r with
  | Never | Chars _ => false
  | Empty | Star _ => true
  | Seq r1 r2 => nullable r1 && nullable r2
  | Alt r1 r2 => nullable r1 || nullable r2
  end.

(** [Seq] and [Alt], simplified where an argument is [Never] or
    [Empty]. *)
Definition seq (r1 r2 : regex) : regex :=
  match r1, r2 with
  | Never, _ | _, Never => Never
  | Empty, r | r, Empty => r
  | _, _ => Seq r1 r2
  end.

Definition alt (r1 r2 : regex) : regex :=
  match r1, r2 with
  | Never, r | r, Never => r
  | _, _ => Alt r1 r2
  end.

(** The texts that [r] matches after the character [a]. *)
Fixpoint deriv (a : ascii) (r : regex) : regex :=
  match r with
  | Never | Empty => Never
  | Chars p => if p a then Empty else Never
  | Seq r1 r2 =>
      if nullable r1 then alt (seq (deriv a r1) r2) (deriv a r2)
      else seq (deriv a r1) r2
  | Alt r1 r2 => alt (deriv a r1) (deriv a r2)
  | Star r1 => seq (deriv a r1) (Star r1)
  end.

(** The whole of [s] is in the language of [r]. *)
Fixpoint matches (r : regex) (s : string) : bool :=
  match s with
  | EmptyString => nullable r
  | String a s' => matches (deriv a r) s'
  end.

Definition lower (a : ascii) : ascii :=
  let n := nat_of_ascii a in
  if ((65 <=? n) && (n <=? 90))%nat then ascii_of_nat (n + 32) else a.

Definition is_digit (a : ascii) : bool :=
  let n := nat_of_ascii a in ((48 <=? n) && (n <=? 57))%nat.

Definition is_alpha (a : ascii) : bool :=
  let n := nat_of_ascii (lower a) in ((97 <=? n) && (n <=? 122))%nat.

Definition is_alnum (a : ascii) : bool := is_alpha a || is_digit a.

(** A letter or sign of the pattern, in either case. *)
Definition chr (c : ascii) : regex := Chars (λ a, Ascii.eqb (lower a) c).

Fixpoint lit (s : string) : regex :=
  match s with
  | EmptyString => Empty
  | String c s' => Seq (chr c) (lit s')
  end.

(** [r?], [r+], [r{n}], [r{0,n}], [r{lo,hi}], [r{lo,}] *)
Definition opt (r : regex) : regex := Alt Empty r.
Definition plus (r : regex) : regex := Seq r (Star r).

Fixpoint times (n : nat) (r : regex) : regex :=
  match n with
  | O => Empty
  | S n => Seq r (times n r)
  end.

Fixpoint upto (n : nat) (r : regex) : regex :=
  match n with
  | O => Empty
  | S n => opt (Seq r (upto n r))
  end.

Definition between (lo hi : nat) (r : regex) : regex :=
  Seq (times lo r) (upto (hi - lo) r).

Definition at_least (lo : nat) (r : regex) : regex := Seq (times lo r) (Star r).

Definition newline : ascii := "010"%char.

(** [.], [\d], and [$]: the end of the text, or the newline that ends
    it. *)
Definition dot : regex := Chars (λ a, negb (Ascii.eqb a newline)).
Definition digit : regex := Chars is_digit.
Definition end_of_text : regex := opt (Chars (Ascii.eqb newline)).

(** Any character, for what follows a match that need not reach the end
    of the text. *)
Definition any : regex := Chars (λ _, true).

(** l.88-94 *)
Definition url_pattern : regex :=
  Seq (lit "http") (Seq (opt (chr "s")) (Seq (lit "://")
  (Seq (Alt (Seq (plus (Seq (Chars is_alnum)
                       (Seq (opt (Seq (upto 61 (Chars (λ a, is_alnum a
                                                        || Ascii.eqb a "-")))
                                      (Chars is_alnum)))
                            (chr "."))))
                 (Seq (at_least 2 (Chars is_alpha)) (opt (chr "."))))
            (Alt (lit "localhost")
                 (Seq (between 1 3 digit) (Seq (chr ".")
                 (Seq (between 1 3 digit) (Seq (chr ".")
                 (Seq (between 1 3 digit) (Seq (chr ".")
                      (between 1 3 digit)))))))))
  (Seq (opt (Seq (chr ":") (plus digit)))
  (Seq (Alt (opt (chr "/"))
            (Seq (Chars (λ a, Ascii.eqb a "/" || Ascii.eqb a "?")) (Star dot)))
       end_of_text))))).

(** The class [[a-zA-Z0-9_-]] of l.97 *)
Definition is_id_char (a : ascii) : bool :=
  is_alnum a || Ascii.eqb a "_" || Ascii.eqb a "-".

(** l.97 *)
Definition youtube_short : regex :=
  Seq (lit "http") (Seq (opt (chr "s")) (Seq (lit "://youtu.be/")
  (plus (Chars is_id_char)))).

(** [is_url] (l.85-99): [url_pattern] ends in [$], [youtube_short] may
    stop before the end of the text. *)
Definition is_url (text : string) : bool :=
  matches url_pattern text || matches (Seq youtube_short (Star any)) text.

End Re.

(* ===================================================================== *)
(** ** The vocabulary of the statements *)
(* ===================================================================== *)

(** The session has ended: its task is cancelled. *)
Definition Terminated (s : Session) : Prop :=
  audio_player (player s) = Cancelled.

(** The session is idle: there is no current track, nothing streams, and
    the loop waits for work or for the idle timeout, that is, it is
    suspended at l.252 or has not run yet. *)
Definition Idle (s : Session) : Prop :=
  current (player s) = None ∧ is_playing s = false ∧
  (audio_player (player s) = Running AtTop
   ∨ audio_player (player s) = Running AtWaitEmpty).

(** The track that a step hands to the voice client with success: the
    loop is resumed from its resolver call and [VoiceClient.play] (l.273,
    l.293) accepts the source, so the track begins to stream. *)
Definition begun (e : event) (s : Session) : option song_info :=
  match e, audio_player (player s), current (player s) with
  | Loop (Start o), Running AtStart, Some t =>
      match start_playback o t s with
      | Return _ => Some t
      | Raise _ => None
      end
  | _, _, _ => None
  end.

(** The playback order of a run: the tracks that began to stream, in
    order. *)
Fixpoint playback {rt : Runtime} (es : list event) (s : Session)
  : list song_info :=
  match es with
  | [] => []
  | e :: es' =>
      (match begun e s with
       | Some t => [t]
       | None => []
       end ++ playback es' (step e s).1)%list
  end.

(** The events that keep what is queued until the loop takes it: all but
    [stop], [cleanup], and the idle timeout (which runs [cleanup]). *)
Definition keeps_queue (e : event) : bool :=
  match e with
  | Stop | Cleanup | Loop TimedOut => false
  | _ => true
  end.

(** The tracks of the enqueue calls of a run that completed, in the order
    of their completion. *)
Definition enqueued {rt : Runtime} (a : string) (es : list event) : list song_info :=
  omap (fun e => match e with
                 | AddToQueue _ r =>
                     match song_info_of a r with
                     | Return t => Some t
                     | Raise _ => None
                     end
                 | _ => None
                 end) es.

(** What one step does to the queue, read off the trace it leaves: the
    tracks it takes leave at the head, the tracks it adds arrive at the
    tail. *)
Definition fifo_step (s s' : Session) (out : list output) : Prop :=
  (played out ++ queue (player s') = queue (player s) ++ appended out)%list ∧
  author (player s') = author (player s).

(** The exception with which [start_playback] fails, if it does: the
    resolver failed, or the voice client refused the source. It depends on
    the outcome and the voice client only. *)
Definition start_error (o : start_outcome) (vc : option VoiceClient)
  : option pyexn :=
  match o with
  | ResolveFailed msg => Some (Exception msg)
  | Resolved _ _ =>
      match vc with
      | None => Some (AttributeError "'NoneType' object has no attribute 'play'")
      | Some vc =>
          if negb (connected vc) then Some (Exception "Not connected to voice.")
          else if playing vc then Some (Exception "Already playing audio.")
          else None
      end
  end.

(** The error reports of a trace, in order. *)
Definition errors (out : list output) : list string :=
  omap (fun o => match o with SendErrorPlaying m => Some m | _ => None end) out.

(** The duration is a non-negative integer. *)
Definition nonneg_duration (t : song_info) : Prop :=
  ∃ n : Z, duration t = PyInt n ∧ 0 ≤ n.

(** What the resolver reported under ['duration'] is nothing, a string
    that [int] refuses or reads as a non-negative number, or a
    non-negative integer. *)
Definition reported_nonneg {rt : Runtime} (o : option pyval) : Prop :=
  match o with
  | None | Some PyNone => True
  | Some (PyStr s) =>
      match int_of_str s with
      | Some n => 0 ≤ n
      | None => True
      end
  | Some (PyInt n) => 0 ≤ n
  | Some _ => False
  end.



(** *** For the further properties *)

(** The fields of a text between its colons. *)
Fixpoint fields (s : string) : list string :=
  match s with
  | EmptyString => [EmptyString]
  | String a s' =>
      if Ascii.eqb a ":" then EmptyString :: fields s'
      else match fields s' with
           | f :: fs => String a f :: fs
           | [] => [String a EmptyString]
           end
  end.

(** A clock text read back: two or three fields of decimal digits, in
    base 60. *)
Definition read_clock (s : string) : option Z :=
  match mapM (fun f => Z.of_uint <$> DecimalString.NilZero.uint_of_string f) (fields s) with
  | Some [m; s] => Some (m * 60 + s)
  | Some [h; m; s] => Some (h * 3600 + m * 60 + s)
  | _ => None
  end.


(** No colon in a text. *)
Fixpoint no_colon (s : string) : bool :=
  match s with
  | EmptyString => true
  | String a s' => negb (Ascii.eqb a ":") && no_colon s'
  end.

(** The text in lower case, and whether all its characters are ASCII. *)
Fixpoint lower_text (s : string) : string :=
  match s with
  | EmptyString => EmptyString
  | String a s' => String (Re.lower a) (lower_text s')
  end.

Fixpoint ascii_text (s : string) : bool :=
  match s with
  | EmptyString => true
  | String a s' => (nat_of_ascii a <? 128)%nat && ascii_text s'
  end.

(** The sweep of bot.py (l.86) counts the voice connection of a guild as
    lost: no voice client, or one that is not connected. *)
Definition lost (b : Bot) (g : Z) : bool :=
  match voice_clients b !! g with
  | Some vc => negb (connected vc)
  | None => true
  end.

(** The track that the voice client of [s] holds as its source. *)
Definition streaming (s : Session) : option song_info :=
  src_song <$> (voice_client s ≫= source).

(** What the channel is told when the start of a track fails while the
    voice client is connected and streaming. *)
Definition refusal (o : start_outcome) : string :=
  match o with
  | Resolved _ _ => "Already playing audio."
  | ResolveFailed msg => msg
  end.

(* ===================================================================== *)
(** ** A runtime and sample data for the examples *)
(* ===================================================================== *)

(** The runtime restricted to ASCII text: a query counts as a URL when it
    starts with an http(s) scheme, [strip] removes the ASCII white space,
    and [int] reads an optional sign followed by decimal digits. *)
Module Ascii_runtime.

Definition is_space (a : ascii) : bool :=
  let n := nat_of_ascii a in
  ((9 <=? n) && (n <=? 13) || (28 <=? n) && (n <=? 32))%nat.

Fixpoint lstrip (s : string) : string :=
  match s with
  | String a s' => if is_space a then lstrip s' else s
  | EmptyString => EmptyString
  end.

Fixpoint rstrip (s : string) : string :=
  match s with
  | String a s' =>
      match rstrip s' with
      | EmptyString => if is_space a then EmptyString else String a EmptyString
      | r => String a r
      end
  | EmptyString => EmptyString
  end.

Definition digit (a : ascii) : option Z :=
  let n := nat_of_ascii a in
  if ((48 <=? n) && (n <=? 57))%nat then Some (Z.of_nat n - 48) else None.

Fixpoint digits (acc : Z) (s : string) : option Z :=
  match s with
  | EmptyString => Some acc
  | String a s' =>
      match digit a with
      | Some d => digits (10 * acc + d) s'
      | None => None
      end
  end.

Definition int (s : string) : option Z :=
  match rstrip (lstrip s) with
  | EmptyString => None
  | String "-" (String a s') => Z.opp <$> digits 0 (String a s')
  | String "+" (String a s') => digits 0 (String a s')
  | s' => digits 0 s'
  end.

Definition runtime : Runtime :=
  {| is_url q := String.prefix "http://" q || String.prefix "https://" q;
     strip s := rstrip (lstrip s);
     int_of_str := int |}.

End Ascii_runtime.

Module Sample.

Definition info (name : string) (seconds : Z) : pyval :=
  PyDict (list_to_map
    [("url", PyStr ("https://media.example/" ++ name ++ ".m4a"));
     ("title", PyStr name);
     ("duration", PyInt seconds);
     ("webpage_url", PyStr ("https://video.example/watch?v=" ++ name))]).

Definition track (name : string) (seconds : Z) : song_info :=
  {| url := PyStr ("https://media.example/" ++ name ++ ".m4a");
     title := PyStr name;
     duration := PyInt seconds;
     webpage_url := PyStr ("https://video.example/watch?v=" ++ name);
     thumbnail := PyNone;
     requester := "ada" |}.

(** A search answer: a playlist-like dictionary whose first entry is the
    hit. *)
Definition found (name : string) (seconds : Z) : extract_result :=
  ExtractReturns (PyDict (list_to_map
    [("entries", PyList [info name seconds])])).

(** The resolver call of the loop succeeds, on the path with volume
    control, for the track of that name. *)
Definition opened (name : string) : resume_input :=
  Start (Resolved false (Some (PyStr name))).

Definition idle_client : VoiceClient :=
  {| connected := true; source := None; playing := false |}.

(** A player just created by a command of [ada], in a guild where the bot
    has joined a voice channel. *)
Definition fresh : Session :=
  {| player := new_player "ada"; voice_client := Some idle_client |}.

(** The session in which track [a] is streaming and track [b] waits in
    the queue: the loop took [a] when it was enqueued and is back at
    l.252. *)
Definition busy : Session :=
  (run (rt := Ascii_runtime.runtime)
     [Loop Wake; AddToQueue "a" (found "a" 10); Loop Wake;
      Loop (opened "a"); AddToQueue "b" (found "b" 20)]
     fresh).1.

(** Three tracks were enqueued at once and the loop is opening the first:
    [a] is in the current slot, [b] and [c] wait. *)
Definition three_queued : Session :=
  (run (rt := Ascii_runtime.runtime)
     [Loop Wake; AddToQueue "a" (found "a" 10);
      AddToQueue "b" (found "b" 20); AddToQueue "c" (found "c" 30);
      Loop Wake]
     fresh).1.

(** Track [a] was enqueued, taken by the loop and streamed to its end;
    the two scheduled calls have run and the loop is back at l.252. *)
Definition played_out : Session :=
  (run (rt := Ascii_runtime.runtime)
     [Loop Wake; AddToQueue "a" (found "a" 10); Loop Wake;
      Loop (opened "a"); StreamEnds; Callback; Callback;
      Loop Wake]
     fresh).1.

(** Tracks [b] and [c] were enqueued while [a] was streaming. When [a]
    ended the loop took [b] and started it; the wait of l.309 found the
    event still set, so the loop went on and took [c] as well. *)
Definition overtaken : Session :=
  (run (rt := Ascii_runtime.runtime)
     [Loop Wake; AddToQueue "a" (found "a" 10); Loop Wake;
      Loop (opened "a");
      AddToQueue "b" (found "b" 20); AddToQueue "c" (found "c" 30);
      StreamEnds; Callback; Callback; Loop Wake;
      Loop (opened "b")]
     fresh).1.

(** The player has just been created and its loop waits at l.252 for a
    first track. *)
Definition idle : Session :=
  (run (rt := Ascii_runtime.runtime) [Loop Wake] fresh).1.

(** A command of [ada] in guild 7. *)
Definition ada : CommandContext := {| guild_id := 7; author_name := "ada" |}.

(** The bot with one guild, whose session is [s]. *)
Definition bot_with (s : Session) : Bot :=
  put_session 7 s
    {| music_players := ∅; voice_clients := ∅; commands_used := ∅ |}.

(** An entry with a title of [None] and a negative duration. *)
Definition odd_info : pyval :=
  PyDict (list_to_map
    [("url", PyStr "https://media.example/x.m4a");
     ("title", PyNone);
     ("duration", PyInt (-1))]).

(** The track the enqueue path builds from [odd_info]. *)
Definition odd_track : song_info :=
  {| url := PyStr "https://media.example/x.m4a";
     title := PyNone;
     duration := PyInt (-1);
     webpage_url := PyNone;
     thumbnail := PyNone;
     requester := "ada" |}.

End Sample.

(** The runtime with the patterns of [is_url], on ASCII text. *)
Definition pattern_runtime : Runtime :=
  {| is_url := Re.is_url;
     strip := strip (Runtime := Ascii_runtime.runtime);
     int_of_str := int_of_str (Runtime := Ascii_runtime.runtime) |}.

(** More sample data. *)
Module Cases.

(** A command of [bob] in guild 7, where [ada] created the player. *)
Definition bob : CommandContext := {| guild_id := 7; author_name := "bob" |}.

Definition no_stats : Stats :=
  {| play_count := 0; error_count := 0; reconnections := 0 |}.

(** [bob] sits in a voice channel that the bot may join. *)
Definition lounge : VoiceState :=
  {| channel_name := "Lounge"; same_channel := false;
     may_connect := true; may_speak := true |}.

(** Track [a] streamed to its end while [b], [c] and [d] were enqueued;
    the two scheduled calls have run, the event is set and the loop, at
    l.252, has not been resumed yet. *)
Definition three_waiting : Session :=
  (run (rt := Ascii_runtime.runtime)
     [Loop Wake; AddToQueue "a" (Sample.found "a" 10); Loop Wake;
      Loop (Sample.opened "a");
      AddToQueue "b" (Sample.found "b" 20); AddToQueue "c" (Sample.found "c" 30);
      AddToQueue "d" (Sample.found "d" 40);
      StreamEnds; Callback; Callback]
     Sample.fresh).1.

(** An entry whose duration is the float 212.5. *)
Definition float_entry : gmap string pyval :=
  list_to_map
    [("url", PyStr "https://media.example/f.m4a");
     ("title", PyStr "f");
     ("duration", PyFloat (S754_finite false 7476679068876800 (-45)))].

(** An entry that reports its duration as [None]. *)
Definition silent_entry : gmap string pyval :=
  list_to_map
    [("url", PyStr "https://media.example/s.m4a");
     ("title", PyStr "s");
     ("duration", PyNone)].

(** A world without cookie files, whose resolvers all answer [a]. *)
Definition world (a : attempt) : Resolver :=
  {| extract := λ _, a; extract_plain := λ _, a;
     extract_with_cookies := λ _, a;
     ffmpeg_audio := λ _, Return ();
     cookiefile := None; local_cookie := "/app/cookies.txt";
     file_exists := λ _, false; file_size := λ _, 0 |}.

(** [repr] of a text without quotes or escapes. *)
Definition quoted (s : string) : string := "'" ++ s ++ "'".

End Cases.

(** Case analysis on the voice client of a session: playing, silent, or
    none. *)
Ltac case_client s := destruct (voice_client s) as [[? ? []]|].

(* ===================================================================== *)
(** ** Properties *)
(* ===================================================================== *)

(** *** The model at work *)

Example search_query_of_text :
  search_query (rt := Ascii_runtime.runtime) " never (gonna) "
  = "ytsearch:never gonna".
Proof. reflexivity. Qed.

Example search_query_of_url :
  search_query (rt := Ascii_runtime.runtime) "https://youtu.be/dQw4w9WgXcQ"
  = "https://youtu.be/dQw4w9WgXcQ".
Proof. reflexivity. Qed.

Example first_entry_is_selected :
  select_entry (Sample.found "a" 10) = Return (Sample.info "a" 10).
Proof. vm_compute. reflexivity. Qed.

Example empty_answer_finds_nothing :
  select_entry (ExtractReturns (PyDict ∅))
  = Raise (Exception "Could not find any matching songs.").
Proof. vm_compute. reflexivity. Qed.

Example numeric_string_duration :
  process_duration (rt := Ascii_runtime.runtime) (PyStr "212") = PyInt 212 ∧
  process_duration (rt := Ascii_runtime.runtime) (PyStr "3:32") = PyInt 0 ∧
  process_duration (rt := Ascii_runtime.runtime) PyNone = PyInt 0.
Proof. repeat split; reflexivity. Qed.

(** The first track of an idle session: enqueued, taken, started. The
    wait of l.309 then finds the event still set, and the loop ends up at
    l.252, under the idle timeout, while the track streams. *)
Example first_track_streams :
  (run (rt := Ascii_runtime.runtime)
     [Loop Wake; AddToQueue "a" (Sample.found "a" 10); Loop Wake;
      Loop (Sample.opened "a")] Sample.fresh).2
  = [AddedToQueue (Sample.track "a" 10);
     PlayingNextTrack (Sample.track "a" 10);
     SendNowPlaying (PyStr "a")] ∧
  audio_player (player (run (rt := Ascii_runtime.runtime)
     [Loop Wake; AddToQueue "a" (Sample.found "a" 10); Loop Wake;
      Loop (Sample.opened "a")] Sample.fresh).1)
  = Running AtWaitEmpty.
Proof. split; vm_compute; reflexivity. Qed.

(** *** Volume *)

Lemma SFltb_SFleb (a b : spec_float) : SFltb a b = true → SFleb a b = true.
Proof.
  unfold SFltb, SFleb. destruct (SFcompare a b) as [[]|]; congruence.
Qed.

Lemma in_unit_clamp (v : spec_float) : in_unit (py_max float_zero (py_min float_one v)) = true.
Proof.
  unfold py_max, py_min, in_unit.
  destruct (SFltb v float_one) eqn:Hhi.
  - destruct (SFltb float_zero v) eqn:Hlo.
    + by rewrite (SFltb_SFleb _ _ Hlo), (SFltb_SFleb _ _ Hhi).
    + reflexivity.
  - reflexivity.
Qed.

(** Only [set_volume] writes the volume. *)
Lemma volume_top s : volume (player (top s).1) = volume (player s).
Proof. unfold top. simpl. by destruct (queue (player s)). Qed.

Lemma volume_wait_next s : volume (player (wait_next s).1) = volume (player s).
Proof.
  unfold wait_next. destruct (next (player s)); [apply volume_top | done].
Qed.

Lemma volume_cleanup s : volume (player (cleanup s)) = volume (player s).
Proof.
  unfold cleanup, vc_disconnect, vc_stop. simpl.
  destruct (audio_player (player s)); simpl;
    case_client s; done.
Qed.

Lemma volume_after_start o s :
  volume (player (after_start o s).1) = volume (player s).
Proof.
  unfold after_start. destruct (current (player s)) as [t|]; [|done].
  destruct (start_playback o t s) as [[s' out]|e] eqn:Hst.
  - destruct (wait_next s') as [s'' out'] eqn:Hw. simpl.
    change s'' with (s'', out').1. rewrite <- Hw, volume_wait_next.
    unfold start_playback in Hst. destruct o; [|done].
    destruct (voice_client s) as [vc|]; [|done].
    destruct (vc_play _ vc); simpl in Hst; by simplify_eq.
  - destruct (top (on_player song_finished s)) as [s' out'] eqn:Ht. simpl.
    change s' with (s', out').1. by rewrite <- Ht, volume_top.
Qed.

Lemma volume_player_loop i s :
  volume (player (player_loop i s).1) = volume (player s).
Proof.
  unfold player_loop, after_wait_empty.
  destruct (audio_player (player s)) as [[]|]; try done.
  - destruct i; try done. apply volume_top.
  - destruct i; try done; [|apply volume_cleanup].
    destruct (next (player s)); [|done].
    destruct (queue (player s)); [apply volume_wait_next | done].
  - destruct i; try done. apply volume_after_start.
  - destruct i; try done. destruct (next (player s)); [apply volume_top | done].
Qed.

Lemma volume_add_to_queue {rt : Runtime} q r s :
  volume (player (add_to_queue q r s).1.1) = volume (player s).
Proof.
  unfold add_to_queue. destruct (song_info_of _ r); [|done]. simpl.
  case_client s; done.
Qed.

Lemma in_unit_step {rt : Runtime} e s :
  in_unit (volume (player s)) = true →
  in_unit (volume (player (step e s).1)) = true.
Proof.
  intros Hs. destruct e; simpl.
  - destruct (add_to_queue query r s) as [[s' res] out] eqn:Ha. simpl.
    change s' with (s', res, out).1.1. by rewrite <- Ha, volume_add_to_queue.
  - unfold skip, vc_stop. by case_client s.
  - unfold stop, vc_stop. simpl. by case_client s.
  - by rewrite volume_cleanup.
  - apply in_unit_clamp.
  - by rewrite volume_player_loop.
  - unfold run_callback. by destruct (scheduled (player s)) as [|[] ?].
  - unfold stream_ends. by case_client s.
Qed.

Lemma in_unit_run {rt : Runtime} es s :
  in_unit (volume (player s)) = true →
  in_unit (volume (player (run es s).1)) = true.
Proof.
  revert s. induction es as [|e es IH]; intros s Hs; [done|].
  simpl. destruct (step e s) as [s1 out1] eqn:He.
  destruct (run es s1) as [s2 out2] eqn:Hr. simpl.
  change s2 with (s2, out2).1. rewrite <- Hr. apply IH.
  change s1 with (s1, out1).1. rewrite <- He. by apply in_unit_step.
Qed.

(** C10. [set_volume(v)] stores [max(0.0, min(1.0, v))] for every float [v],
    NaN and the infinities included; the stored value lies in [0, 1], and so
    does the volume of a player after any run of the session from its
    creation (where the volume is 0.5), whatever calls of [set_volume] the
    run holds. *)
Theorem set_volume_clamps {rt : Runtime} (v : spec_float) (s : Session) :
  volume (player (set_volume v s)) = py_max float_zero (py_min float_one v) ∧
  in_unit (volume (player (set_volume v s))) = true ∧
  ∀ (a : string) (vc : option VoiceClient) (es : list event),
    in_unit (volume (player
      (run es {| player := new_player a; voice_client := vc |}).1)) = true.
Proof.
  split; [done|]. split; [apply in_unit_clamp|].
  intros a vc es. by apply in_unit_run.
Qed.


(** *** Stop and cleanup *)

Lemma stop_halts_and_clears (s : Session) :
  queue (player (stop s)) = [] ∧
  is_playing (stop s) = false ∧
  audio_player (player (stop s)) = audio_player (player s) ∧
  current (player (stop s)) = current (player s) ∧
  (is_Some (voice_client (stop s)) ↔ is_Some (voice_client s)).
Proof.
  unfold stop, is_playing, vc_stop.
  destruct s as [p [[cn src []]|]]; simpl; repeat split; eauto.
Qed.

(** C3, what the code does. From every session, [stop] empties the queue
    and halts the stream, and keeps the task and the voice client. But it
    does not leave the session idle. It does not touch the current slot:
    once a track has been taken, the slot holds a track after every
    [stop]. And it does not recall a track that the loop is opening: the
    task stays suspended in the resolver call of l.270, and when that call
    returns the loop hands the track to the voice client. In
    [three_queued], which is not terminated, the loop is opening [a];
    after [stop] the session is not idle, and the next resumption of the
    loop streams [a]. In [busy], where [a] streams, [stop] and the loop's
    reaction to it lead to a loop that waits at l.252 in silence on an
    empty queue, with [a] still in the current slot. *)
Theorem stop_does_not_leave_idle :
  (∀ s, queue (player (stop s)) = [] ∧
        is_playing (stop s) = false ∧
        audio_player (player (stop s)) = audio_player (player s) ∧
        current (player (stop s)) = current (player s) ∧
        (is_Some (voice_client (stop s)) ↔ is_Some (voice_client s))) ∧
  (∀ s, is_Some (current (player s)) → ¬ Idle (stop s)) ∧
  (∀ s, audio_player (player s) = Running AtStart → ¬ Idle (stop s)) ∧
  ¬ Terminated Sample.three_queued ∧
  audio_player (player Sample.three_queued) = Running AtStart ∧
  current (player Sample.three_queued) = Some (Sample.track "a" 10) ∧
  ¬ Idle (stop Sample.three_queued) ∧
  playback (rt := Ascii_runtime.runtime)
    [Stop; Loop (Sample.opened "a")] Sample.three_queued
    = [Sample.track "a" 10] ∧
  (let s' := (run (rt := Ascii_runtime.runtime)
                [Stop; Loop (Sample.opened "a")] Sample.three_queued).1 in
   is_playing s' = true ∧ streaming s' = Some (Sample.track "a" 10)) ∧
  ¬ Terminated Sample.busy ∧
  (let s' := (run (rt := Ascii_runtime.runtime)
                [Stop; Callback; Callback; Loop Wake] Sample.busy).1 in
   audio_player (player s') = Running AtWaitEmpty ∧
   queue (player s') = [] ∧
   is_playing s' = false ∧
   scheduled (player s') = [] ∧
   current (player s') = Some (Sample.track "a" 10) ∧
   ¬ Idle s').
Proof.
  split; [apply stop_halts_and_clears|].
  split.
  { intros s [t Ht] (Hcur & _).
    destruct (stop_halts_and_clears s) as (_ & _ & _ & Hc & _).
    congruence. }
  split.
  { intros s Hpc (_ & _ & Hwait).
    destruct (stop_halts_and_clears s) as (_ & _ & Ht & _).
    rewrite Ht, Hpc in Hwait. by destruct Hwait. }
  split; [by vm_compute|].
  split; [vm_compute; reflexivity|].
  split; [vm_compute; reflexivity|].
  split. { intros (Hcur & _). vm_compute in Hcur. discriminate. }
  split; [vm_compute; reflexivity|].
  split. { cbv zeta. split; vm_compute; reflexivity. }
  split; [by vm_compute|].
  cbv zeta. repeat split; try (vm_compute; reflexivity).
  intros (Hcur & _). vm_compute in Hcur. discriminate.
Qed.

Lemma cleanup_releases (s : Session) :
  queue (player (cleanup s)) = [] ∧
  audio_player (player (cleanup s)) = Cancelled ∧
  voice_client (cleanup s) = None.
Proof.
  unfold cleanup, vc_disconnect, vc_stop, cancel.
  destruct s as [[a q c n cs [pc|] v] [[cn src []]|]]; simpl; done.
Qed.

(** C9. [cleanup] never raises (its body is wrapped in [try/except]) and
    is idempotent: a second call changes nothing. After it the queue is
    empty, the player task is cancelled and the voice client is released. *)
Theorem cleanup_idempotent (s : Session) :
  cleanup (cleanup s) = cleanup s ∧
  queue (player (cleanup s)) = [] ∧
  audio_player (player (cleanup s)) = Cancelled ∧
  voice_client (cleanup s) = None.
Proof.
  split; [|apply cleanup_releases].
  destruct (cleanup_releases s) as (Hq & Ht & Hv).
  destruct (cleanup s) as [[a q c n cs t v] vc]. simpl in *. by subst.
Qed.


(** *** Enqueue *)

Lemma resolver_error_is_failure {rt : Runtime} (a msg : string) :
  song_info_of a (ExtractRaises msg) = Raise (Exception msg).
Proof. reflexivity. Qed.

Lemma nothing_found_is_failure {rt : Runtime} (a : string) :
  song_info_of a (ExtractReturns (PyDict (list_to_map [("entries", PyList [])])))
  = Raise (IndexError "list index out of range").
Proof. reflexivity. Qed.

(** A resolved track is appended at the tail, also when the call then
    raises because the bot has no voice client (l.371). *)
Lemma add_to_queue_appends {rt : Runtime} (query : string) (r : extract_result)
    (s : Session) (t : song_info) :
  song_info_of (author (player s)) r = Return t →
  queue (player (add_to_queue query r s).1.1) = (queue (player s) ++ [t])%list ∧
  (add_to_queue query r s).2 = [AddedToQueue t].
Proof.
  intros Ht. unfold add_to_queue. rewrite Ht. simpl.
  case_client s; done.
Qed.

(** C5. When the resolution of a query fails (the resolver raises, or what
    it returns yields no track), [add_to_queue] raises an exception whose
    text names the query and the cause, and the session is exactly the one
    before the call: nothing is appended, nothing is signalled, nothing is
    logged as added. *)
Theorem add_to_queue_failure_is_atomic {rt : Runtime} (query : string)
    (r : extract_result) (s : Session) (e : pyexn) :
  song_info_of (author (player s)) r = Raise e →
  add_to_queue query r s
    = (s, Raise (wrap_error (search_query query) e), []) ∧
  ∃ detail : string,
    wrap_error (search_query query) e
    = Exception ("Could not process " ++ search_query query ++ ": " ++ detail).
Proof.
  intros Hfail. split.
  - unfold add_to_queue. by rewrite Hfail.
  - unfold wrap_error, could_not_process. eauto.
Qed.

Lemma add_to_queue_failure_is_atomic_witness :
  add_to_queue (rt := Ascii_runtime.runtime) " never (gonna) "
    (ExtractRaises "ERROR: Sign in to confirm your age") Sample.busy
  = (Sample.busy,
     Raise (Exception
       "Could not process ytsearch:never gonna: YouTube requires authentication. Please check your cookies.txt file."),
     []).
Proof.
  destruct (add_to_queue_failure_is_atomic (rt := Ascii_runtime.runtime)
    " never (gonna) " (ExtractRaises "ERROR: Sign in to confirm your age")
    Sample.busy (Exception "ERROR: Sign in to confirm your age")) as [Heq _].
  - reflexivity.
  - rewrite Heq. reflexivity.
Defined.

(** *** Tracks *)

Lemma build_song_info_dict {rt : Runtime} a data t :
  build_song_info a data = Return t →
  ∃ d, data = PyDict d ∧
    t = {| url := default (default PyNone (d !! "webpage_url")) (d !! "url");
           title := default (PyStr "Unknown title") (d !! "title");
           duration := process_duration (default PyNone (d !! "duration"));
           webpage_url := default PyNone (d !! "webpage_url");
           thumbnail := default PyNone (d !! "thumbnail");
           requester := a |}.
Proof.
  destruct data; try discriminate.
  unfold build_song_info. simpl. intros [= <-]. eexists; split; [done|].
  f_equal; by destruct (_ !! _).
Qed.

(** C8, as the code has it. A track built by the enqueue path comes from a
    non-empty dictionary [d], the entry selected from the resolver's
    answer. Its title is [d]'s ['title'] and ["Unknown title"] only when
    [d] has no such key. Its duration is 0 when [d] reports none ([None] or
    no key) or a string that [int] refuses, the integer read from a string
    that [int] accepts, and otherwise the reported value as it is; so it is
    a non-negative integer whenever the report is none, a string refused
    by [int], or a non-negative integer, written out or as a string. *)
Theorem track_fields_follow_report {rt : Runtime} (a : string)
    (r : extract_result) (t : song_info) :
  song_info_of a r = Return t →
  ∃ d : gmap string pyval,
    select_entry r = Return (PyDict d) ∧ d ≠ ∅ ∧
    requester t = a ∧
    title t = default (PyStr "Unknown title") (d !! "title") ∧
    (d !! "title" = None → title t = PyStr "Unknown title") ∧
    match d !! "duration" with
    | None | Some PyNone => duration t = PyInt 0
    | Some (PyStr s) => duration t = PyInt (default 0 (int_of_str s))
    | Some v => duration t = v
    end ∧
    (reported_nonneg (d !! "duration") → nonneg_duration t).
Proof.
  unfold song_info_of. intros Ht.
  destruct (select_entry r) as [data|] eqn:Hsel; [|done].
  simpl in Ht. apply build_song_info_dict in Ht as (d & -> & ->).
  exists d. split; [done|]. split.
  { intros ->. unfold select_entry in Hsel.
    destruct r as [|data]; [done|]. simpl in Hsel.
    destruct (contains "entries" data) as [[]|]; simpl in Hsel; try done.
    - destruct (getitem "entries" data) as [en|]; simpl in Hsel; [|done].
      destruct (getitem0 en) as [x|]; simpl in Hsel; [|done].
      destruct (truthy x) eqn:Hx; simpl in Hsel; [|done].
      simplify_eq; try by rewrite map_to_list_empty in Hx.
    - destruct (truthy data) eqn:Hx; simpl in Hsel; [|done].
      simplify_eq; try by rewrite map_to_list_empty in Hx. }
  simpl. split; [done|]. split; [done|]. split; [by intros ->|].
  unfold nonneg_duration, reported_nonneg. simpl.
  destruct (d !! "duration") as [[]|]; simpl; try done; eauto with lia.
  destruct (int_of_str s); simpl; (split; [done|]); eauto with lia.
Qed.


Lemma track_fields_follow_report_witness :
  nonneg_duration (Sample.track "a" 10) ∧
  title (Sample.track "a" 10) = PyStr "a".
Proof.
  destruct (track_fields_follow_report (rt := Ascii_runtime.runtime) "ada"
              (Sample.found "a" 10) (Sample.track "a" 10))
    as (d & Hsel & _ & _ & Htitle & _ & _ & Hnn).
  - vm_compute. reflexivity.
  - vm_compute in Hsel. injection Hsel as <-. split.
    + apply Hnn. vm_compute. discriminate.
    + reflexivity.
Defined.

(** C8 as stated fails: from an entry whose title is [None] and whose
    duration is [-1], the enqueue path builds a track with exactly these
    two values. *)
Lemma track_invariant_counterexample :
  song_info_of (rt := Ascii_runtime.runtime) "ada"
    (ExtractReturns Sample.odd_info) = Return Sample.odd_track ∧
  ¬ nonneg_duration Sample.odd_track ∧
  title Sample.odd_track = PyNone.
Proof.
  split; [vm_compute; reflexivity|]. split; [|reflexivity].
  intros (n & Hn & Hpos). simpl in Hn. injection Hn as <-. lia.
Qed.


(** *** Playback order *)

Lemma fifo_top s : fifo_step s (top s).1 (top s).2.
Proof.
  unfold fifo_step, top. simpl.
  destruct (queue (player s)) eqn:Hq; simpl; by rewrite ?Hq, ?app_nil_r.
Qed.

Lemma fifo_wait_next s :
  fifo_step s (wait_next s).1 (wait_next s).2 ∧ appended (wait_next s).2 = [].
Proof.
  unfold wait_next. destruct (next (player s)).
  - split; [apply fifo_top|]. unfold top. simpl. by destruct (queue (player s)).
  - split; [|done]. unfold fifo_step. simpl. by rewrite app_nil_r.
Qed.

Lemma fifo_trans s1 s2 s3 out1 out2 :
  fifo_step s1 s2 out1 → fifo_step s2 s3 out2 →
  fifo_step s1 s3 (out1 ++ out2).
Proof.
  unfold fifo_step, played, appended. intros [H1 A1] [H2 A2].
  rewrite !omap_app. split; [|congruence].
  rewrite <- app_assoc, H2, app_assoc, H1. by rewrite app_assoc.
Qed.

Lemma fifo_same_queue s s' out :
  queue (player s') = queue (player s) → author (player s') = author (player s) →
  played out = [] → appended out = [] → fifo_step s s' out.
Proof.
  unfold fifo_step. intros -> -> -> ->. by rewrite app_nil_r.
Qed.

Lemma start_playback_player o t s s' out :
  start_playback o t s = Return (s', out) →
  player s' = player s ∧ played out = [] ∧ appended out = [].
Proof.
  unfold start_playback. destruct o as [fb dt|]; [|done].
  destruct (voice_client s) as [vc|]; [|done].
  destruct (vc_play _ vc); simpl; [|done]. intros [= <- <-].
  by destruct fb.
Qed.

Lemma fifo_after_start o s :
  fifo_step s (after_start o s).1 (after_start o s).2 ∧
  appended (after_start o s).2 = [].
Proof.
  unfold after_start. destruct (current (player s)) as [t|].
  2: { split; [|done]. by apply fifo_same_queue. }
  destruct (start_playback o t s) as [[s' out]|e] eqn:Hst.
  - apply start_playback_player in Hst as (Hp & Hpl & Hap).
    destruct (fifo_wait_next s') as [Hw Hwa].
    destruct (wait_next s') as [s'' out']. simpl in *. split.
    + apply (fifo_trans s s' s''); [|done].
      apply fifo_same_queue; by rewrite ?Hp.
    + unfold appended in *. by rewrite omap_app, Hap, Hwa.
  - pose proof (fifo_top (on_player song_finished s)) as Ht.
    assert (appended (top (on_player song_finished s)).2 = []) as Ha.
    { unfold top. simpl. by destruct (queue (player s)). }
    destruct (top (on_player song_finished s)) as [s' out']. simpl in *.
    split; [|done].
    apply (fifo_trans s (on_player song_finished s) s' [SendErrorPlaying _]);
      [|done].
    by apply fifo_same_queue.
Qed.

Lemma fifo_player_loop i s :
  i ≠ TimedOut →
  fifo_step s (player_loop i s).1 (player_loop i s).2 ∧
  appended (player_loop i s).2 = [].
Proof.
  intros Hi. unfold player_loop, after_wait_empty.
  destruct (audio_player (player s)) as [[]|].
  - destruct i; try (split; [by apply fifo_same_queue|done]).
    split; [apply fifo_top|]. unfold top. simpl. by destruct (queue (player s)).
  - destruct i; try done; try (split; [by apply fifo_same_queue|done]).
    destruct (next (player s)); [|split; [by apply fifo_same_queue|done]].
    destruct (queue (player s)) eqn:Hq; [apply fifo_wait_next|].
    split; [|done]. unfold fifo_step. simpl. by rewrite Hq, app_nil_r.
  - destruct i; try (split; [by apply fifo_same_queue|done]).
    apply fifo_after_start.
  - destruct i; try (split; [by apply fifo_same_queue|done]).
    destruct (next (player s)); [|split; [by apply fifo_same_queue|done]].
    split; [apply fifo_top|]. unfold top. simpl. by destruct (queue (player s)).
  - split; [by apply fifo_same_queue|done].
Qed.

Lemma fifo_step_event {rt : Runtime} e s :
  keeps_queue e = true →
  fifo_step s (step e s).1 (step e s).2 ∧
  appended (step e s).2 = enqueued (author (player s)) [e].
Proof.
  intros Hk. destruct e; simpl in *; try done.
  - unfold add_to_queue.
    destruct (song_info_of (author (player s)) r) as [t|]; simpl.
    + case_client s; simpl; by unfold fifo_step.
    + split; [by apply fifo_same_queue|done].
  - split; [|done]. apply fifo_same_queue; try done;
      unfold skip, vc_stop; by case_client s.
  - split; [|done]. apply fifo_same_queue; try done;
      unfold set_volume; by case_client s.
  - apply fifo_player_loop. by intros ->.
  - split; [|done]. apply fifo_same_queue; try done;
      unfold run_callback; by destruct (scheduled (player s)) as [|[] ?].
  - split; [|done]. apply fifo_same_queue; try done;
      unfold stream_ends; by case_client s.
Qed.

Lemma fifo_run {rt : Runtime} es s :
  forallb keeps_queue es = true →
  fifo_step s (run es s).1 (run es s).2 ∧
  appended (run es s).2 = enqueued (author (player s)) es.
Proof.
  revert s. induction es as [|e es IH]; intros s Hk.
  { split; [by apply fifo_same_queue|done]. }
  simpl in Hk. apply andb_true_iff in Hk as [He Hes].
  destruct (fifo_step_event e s He) as [Hf Ha].
  simpl. destruct (step e s) as [s1 out1]. simpl in *.
  destruct (IH s1 Hes) as [Hf' Ha'].
  destruct (run es s1) as [s2 out2]. simpl in *. split.
  - by apply (fifo_trans s s1 s2).
  - unfold appended, enqueued in *. rewrite omap_app, Ha, Ha'.
    destruct Hf as [_ ->]. simpl.
    by destruct e as [q r| | | | | | |]; try done;
      destruct (song_info_of _ r).
Qed.

Lemma enqueued_cons {rt : Runtime} a e es :
  enqueued a (e :: es) = (enqueued a [e] ++ enqueued a es)%list.
Proof.
  unfold enqueued. simpl.
  destruct e as [q r| | | | | | |]; try done. by destruct (song_info_of a r).
Qed.

(** Nothing is queued and the loop opens no track: a step that enqueues
    nothing begins no stream and leaves it so. *)
Lemma spent_step {rt : Runtime} e s :
  queue (player s) = [] →
  audio_player (player s) ≠ Running AtStart →
  enqueued (author (player s)) [e] = [] →
  begun e s = None ∧
  queue (player (step e s).1) = [] ∧
  audio_player (player (step e s).1) ≠ Running AtStart ∧
  author (player (step e s).1) = author (player s).
Proof.
  intros Hq Hpc He.
  assert (begun e s = None) as Hb.
  { unfold begun. destruct e as [| | | | |[]| |]; try done.
    by destruct (audio_player (player s)) as [[]|]. }
  split; [done|]. destruct e as [q r| | | | |i| |]; simpl.
  - unfold enqueued in He. simpl in He. unfold add_to_queue.
    by destruct (song_info_of (author (player s)) r).
  - unfold skip, vc_stop. by case_client s.
  - unfold stop, vc_stop. simpl. by case_client s.
  - destruct (cleanup_releases s) as (-> & -> & _).
    split; [done|]. split; [done|].
    unfold cleanup, vc_disconnect, vc_stop. simpl.
    destruct (audio_player (player s)); simpl; by case_client s.
  - done.
  - unfold player_loop, after_wait_empty, wait_next, top.
    destruct (audio_player (player s)) as [[]|] eqn:Ht; try done.
    all: destruct i; simpl; rewrite ?Ht; try done.
    all: try (destruct (next (player s)) eqn:Hn); rewrite ?Hq; simpl;
      rewrite ?Hq, ?Hn, ?Ht; simpl; rewrite ?Hq, ?Ht; try done.
    all: destruct (cleanup_releases s) as (-> & -> & _);
      split; [done|]; split; [done|];
      unfold cleanup, vc_disconnect, vc_stop; simpl; rewrite Ht; simpl;
      by case_client s.
  - unfold run_callback. by destruct (scheduled (player s)) as [|[] ?].
  - unfold stream_ends. by case_client s.
Qed.

Lemma spent_run {rt : Runtime} es : ∀ s,
  queue (player s) = [] →
  audio_player (player s) ≠ Running AtStart →
  enqueued (author (player s)) es = [] →
  playback es s = [].
Proof.
  induction es as [|e es IH]; intros s Hq Hpc He; [done|].
  rewrite enqueued_cons in He. apply app_eq_nil in He as [He Hes].
  destruct (spent_step e s Hq Hpc He) as (Hb & Hq' & Hpc' & Ha).
  simpl. rewrite Hb. simpl. apply IH; try done. by rewrite Ha.
Qed.

(** C1, what the code does. The queue itself is first in, first out: the
    tracks that the loop takes (l.259), followed by the tracks still
    queued, are the tracks of the completed enqueue calls in their order,
    as long as nothing clears the queue. But a track that is taken is not
    always played. Let two enqueue calls complete, with tracks [t1] and
    [t2], on an idle session whose loop waits at l.252 on an empty queue,
    the voice client connected. Each call sets the event (l.372). The loop
    wakes, takes [t1] and starts it; the wait of l.309 finds the event
    still set and returns at once, so the loop takes [t2] while [t1]
    streams. [VoiceClient.play] refuses it, the loop reports
    [Already playing audio.] and goes on (l.303-307). The playback order
    is [t1] alone: [t2] has left the queue, and nothing that happens
    later plays it, unless it is enqueued again. On the sample session
    [idle], with [a], [b] and [c] enqueued, only [a] is played, also after
    its stream has ended and the loop has been woken again. *)
Theorem enqueued_track_is_taken_but_not_played :
  (∀ (rt : Runtime) (es : list event) (s : Session),
     queue (player s) = [] →
     forallb keeps_queue es = true →
     (played (run es s).2 ++ queue (player (run es s).1))%list
       = enqueued (author (player s)) es) ∧
  (∀ (rt : Runtime) (s : Session) (vc : VoiceClient) (query1 query2 : string)
     (r1 r2 : extract_result) (t1 t2 : song_info) (fb1 fb2 : bool)
     (dt1 dt2 : option pyval),
     Idle s →
     audio_player (player s) = Running AtWaitEmpty →
     queue (player s) = [] →
     voice_client s = Some vc → connected vc = true →
     song_info_of (author (player s)) r1 = Return t1 →
     song_info_of (author (player s)) r2 = Return t2 →
     let es := [AddToQueue query1 r1; AddToQueue query2 r2; Loop Wake;
                Loop (Start (Resolved fb1 dt1));
                Loop (Start (Resolved fb2 dt2))] in
     enqueued (author (player s)) es = [t1; t2] ∧
     played (run es s).2 = [t1; t2] ∧
     playback es s = [t1] ∧
     errors (run es s).2 = ["Already playing audio."] ∧
     is_playing (run es s).1 = true ∧
     streaming (run es s).1 = Some t1 ∧
     queue (player (run es s).1) = [] ∧
     (∀ es', enqueued (author (player s)) es' = [] →
             playback es' (run es s).1 = [])) ∧
  (let es := [AddToQueue "a" (Sample.found "a" 10);
              AddToQueue "b" (Sample.found "b" 20);
              AddToQueue "c" (Sample.found "c" 30);
              Loop Wake; Loop (Sample.opened "a"); Loop (Sample.opened "b");
              Loop (Sample.opened "c");
              StreamEnds; Callback; Callback; Callback; Callback;
              Loop Wake] in
   Idle Sample.idle ∧
   enqueued (rt := Ascii_runtime.runtime) "ada" es
     = [Sample.track "a" 10; Sample.track "b" 20; Sample.track "c" 30] ∧
   played (run (rt := Ascii_runtime.runtime) es Sample.idle).2
     = [Sample.track "a" 10; Sample.track "b" 20; Sample.track "c" 30] ∧
   playback (rt := Ascii_runtime.runtime) es Sample.idle
     = [Sample.track "a" 10] ∧
   errors (run (rt := Ascii_runtime.runtime) es Sample.idle).2
     = ["Already playing audio."; "Already playing audio."] ∧
   queue (player (run (rt := Ascii_runtime.runtime) es Sample.idle).1) = [] ∧
   is_playing (run (rt := Ascii_runtime.runtime) es Sample.idle).1 = false ∧
   scheduled (player (run (rt := Ascii_runtime.runtime) es Sample.idle).1)
     = [] ∧
   audio_player (player (run (rt := Ascii_runtime.runtime) es Sample.idle).1)
     = Running AtWaitEmpty).
Proof.
  split.
  { intros rt es s Hq Hk. destruct (fifo_run es s Hk) as [[Hf _] Ha].
    by rewrite Hq, Ha in Hf. }
  split.
  { intros rt s vc query1 query2 r1 r2 t1 t2 fb1 fb2 dt1 dt2
      (_ & Hpl & _) Hpc Hq Hvc Hcon H1 H2 es.
    unfold is_playing in Hpl. rewrite Hvc in Hpl.
    destruct s as [[a q c n cs tk v] vcl]. simpl in *. subst.
    destruct vc as [cn src pl]. simpl in *. subst.
    assert (∀ s', queue (player s') = [] →
              audio_player (player s') = Running AtWaitEmpty →
              author (player s') = a →
              ∀ es', enqueued a es' = [] → playback es' s' = []) as Hspent.
    { intros s' Hq' Hpc' Ha' es' He'. apply spent_run; try done.
      - by rewrite Hpc'.
      - by rewrite Ha'. }
    subst es. unfold enqueued, playback, begun, run, step, add_to_queue. simpl.
    rewrite H1. simpl. rewrite H2. simpl.
    unfold player_loop, after_wait_empty, after_start, start_playback,
      wait_next, top, vc_play. simpl.
    repeat split; try by destruct fb1.
    intros es' He'. apply Hspent; try done; by destruct fb1. }
  cbv zeta. split.
  { split; [vm_compute; reflexivity|]. split; [vm_compute; reflexivity|].
    right. vm_compute. reflexivity. }
  repeat split; vm_compute; reflexivity.
Qed.


(** *** Failing tracks *)

Lemma start_playback_error o t s e :
  start_playback o t s = Raise e ↔ start_error o (voice_client s) = Some e.
Proof.
  unfold start_playback, start_error, vc_play. destruct o as [fb dt|msg].
  - destruct (voice_client s) as [[[] src []]|]; simpl;
      split; intros Heq; by simplify_eq.
  - split; intros Heq; by simplify_eq.
Qed.

(** One failed start: the error is reported, the track is dropped and the
    loop is at once at the head of what remains. *)
Lemma failed_start_step o s t e :
  audio_player (player s) = Running AtStart →
  current (player s) = Some t →
  start_error o (voice_client s) = Some e →
  ∃ s', voice_client s' = voice_client s ∧
    match queue (player s) with
    | [] =>
        player_loop (Start o) s = (s', [SendErrorPlaying (str_exn e)]) ∧
        queue (player s') = [] ∧ current (player s') = Some t ∧
        audio_player (player s') = Running AtWaitEmpty
    | t' :: q =>
        player_loop (Start o) s
          = (s', [SendErrorPlaying (str_exn e); PlayingNextTrack t']) ∧
        queue (player s') = q ∧ current (player s') = Some t' ∧
        audio_player (player s') = Running AtStart
    end.
Proof.
  intros Hpc Hcur Herr. apply (start_playback_error o t s e) in Herr.
  unfold player_loop, after_start. rewrite Hpc, Hcur, Herr.
  unfold top. simpl.
  destruct (queue (player s)) eqn:Hq; simpl;
    (eexists; split; [|split; [reflexivity|]]); simpl; by rewrite ?Hq.
Qed.





(** *** The current slot *)

Lemma current_top s :
  is_Some (current (player s)) → is_Some (current (player (top s).1)).
Proof. unfold top. simpl. destruct (queue (player s)); simpl; eauto. Qed.

Lemma current_wait_next s :
  is_Some (current (player s)) → is_Some (current (player (wait_next s).1)).
Proof.
  unfold wait_next. destruct (next (player s)); [apply current_top|done].
Qed.

Lemma current_cleanup s : current (player (cleanup s)) = current (player s).
Proof.
  unfold cleanup, vc_disconnect, vc_stop. simpl.
  destruct (audio_player (player s)); simpl;
    case_client s; done.
Qed.

Lemma current_player_loop i s :
  is_Some (current (player s)) →
  is_Some (current (player (player_loop i s).1)).
Proof.
  intros Hc. unfold player_loop, after_wait_empty, after_start.
  destruct (audio_player (player s)) as [[]|]; try done.
  - destruct i; try done. by apply current_top.
  - destruct i; try done; [|simpl; by rewrite current_cleanup].
    destruct (next (player s)); [|done].
    destruct (queue (player s)); [by apply current_wait_next|simpl; eauto].
  - destruct i; try done.
    destruct (current (player s)) as [t|] eqn:Hcur; [|by destruct Hc].
    destruct (start_playback o t s) as [[s' out]|e] eqn:Hst.
    + apply start_playback_player in Hst as (Hp & _ & _).
      pose proof (current_wait_next s') as Hw. rewrite Hp in Hw.
      destruct (wait_next s'). simpl in *. apply Hw. by rewrite Hcur.
    + pose proof (current_top (on_player song_finished s)) as Ht.
      destruct (top (on_player song_finished s)). simpl in *.
      apply Ht. by rewrite Hcur.
  - destruct i; try done. destruct (next (player s)); [by apply current_top|done].
Qed.

Lemma current_step {rt : Runtime} e s :
  is_Some (current (player s)) → is_Some (current (player (step e s).1)).
Proof.
  intros Hc. destruct e; simpl.
  - unfold add_to_queue. destruct (song_info_of _ r); [|done]. simpl.
    by case_client s.
  - unfold skip, vc_stop. by case_client s.
  - unfold stop, vc_stop. simpl. by case_client s.
  - by rewrite current_cleanup.
  - done.
  - by apply current_player_loop.
  - unfold run_callback. by destruct (scheduled (player s)) as [|[] ?].
  - unfold stream_ends. by case_client s.
Qed.

Lemma current_run {rt : Runtime} es s :
  is_Some (current (player s)) → is_Some (current (player (run es s).1)).
Proof.
  revert s. induction es as [|e es IH]; intros s Hc; [done|].
  simpl. pose proof (current_step e s Hc) as Hs.
  destruct (step e s) as [s1 out1]. specialize (IH s1 Hs).
  by destruct (run es s1).
Qed.

(** C7, what the code does. The current slot is written at l.259 only:
    once a track has been taken, no event empties the slot again. [stop],
    [skip] and the end of the stream leave in it the track that no longer
    streams; so does the loop while it is still opening the track. In
    [played_out], track [a] was enqueued, taken, streamed to its end, and
    the loop is back waiting on an empty queue: the slot still holds [a]
    and the voice client plays nothing; the command [nowplaying] then
    shows [a] as playing. In [three_queued] the slot holds [a], which is
    only being resolved. In [overtaken] the slot holds [c] while the voice
    client streams [b]. *)
Theorem current_slot_outlives_stream {rt : Runtime} :
  (∀ s, current (player (stop s)) = current (player s)) ∧
  (∀ s, current (player (skip s)) = current (player s)) ∧
  (∀ s, current (player (stream_ends s)) = current (player s)) ∧
  (∀ es s, is_Some (current (player s)) →
           is_Some (current (player (run es s).1))) ∧
  current (player Sample.played_out) = Some (Sample.track "a" 10) ∧
  is_playing Sample.played_out = false ∧
  queue (player Sample.played_out) = [] ∧
  audio_player (player Sample.played_out) = Running AtWaitEmpty ∧
  current (player Sample.three_queued) = Some (Sample.track "a" 10) ∧
  is_playing Sample.three_queued = false ∧
  current (player Sample.overtaken) = Some (Sample.track "c" 30) ∧
  (src_song <$> (voice_client Sample.overtaken ≫= source))
    = Some (Sample.track "b" 20) ∧
  is_playing Sample.overtaken = true ∧
  (cmd_nowplaying Sample.ada (Sample.bot_with Sample.played_out)).2
    = [NowPlayingEmbed (Sample.track "a" 10)].
Proof.
  split. { intros s. unfold stop, vc_stop. simpl.
           by case_client s. }
  split. { intros s. unfold skip, vc_stop.
           by case_client s. }
  split. { intros s. unfold stream_ends.
           by case_client s. }
  split. { intros es s. apply current_run. }
  repeat split; vm_compute; reflexivity.
Qed.


(** *** The registry *)

Lemma cancelled_top_free i s :
  audio_player (player s) = Cancelled → player_loop i s = (s, []).
Proof. unfold player_loop. by intros ->. Qed.

Lemma cancelled_step {rt : Runtime} e s :
  audio_player (player s) = Cancelled →
  audio_player (player (step e s).1) = Cancelled ∧ played (step e s).2 = [].
Proof.
  intros Hc. destruct e; simpl.
  - unfold add_to_queue. destruct (song_info_of _ r); [|done]. simpl.
    by case_client s.
  - unfold skip, vc_stop. by case_client s.
  - unfold stop, vc_stop. simpl. by case_client s.
  - by destruct (cleanup_releases s) as (_ & -> & _).
  - done.
  - by rewrite cancelled_top_free.
  - unfold run_callback. by destruct (scheduled (player s)) as [|[] ?].
  - unfold stream_ends. by case_client s.
Qed.

(** A player whose task is cancelled takes no track, whatever is enqueued
    and whatever else happens. *)
Lemma cancelled_never_plays {rt : Runtime} es s :
  audio_player (player s) = Cancelled → played (run es s).2 = [].
Proof.
  revert s. induction es as [|e es IH]; intros s Hc; [done|].
  simpl. destruct (cancelled_step e s Hc) as [Hc' Hp].
  destruct (step e s) as [s1 out1]. specialize (IH s1 Hc').
  destruct (run es s1) as [s2 out2]. simpl in *.
  unfold played in *. by rewrite omap_app, Hp, IH.
Qed.

(** The idle timeout on a registered player: the loop runs [cleanup] and
    nothing else. *)
Lemma idle_timeout_runs_cleanup {rt : Runtime} g b p :
  music_players b !! g = Some p →
  audio_player p = Running AtWaitEmpty →
  deliver g (Loop TimedOut) b
  = (put_session g (cleanup (session_of g p b)) b, []).
Proof.
  intros Hp Hpc. unfold deliver. rewrite Hp. simpl.
  unfold player_loop. simpl. by rewrite Hpc.
Qed.

(** C2, what the code does. An idle session (empty queue, loop waiting at
    l.252) of guild 7 meets its idle timeout. The loop runs [cleanup]: the
    voice client is disconnected, the queue is empty, the task is cancelled
    and no later resumption does anything, so the session terminates once.
    But the player stays in [bot.music_players]: [cleanup] does not touch
    the registry. The two callers of [cleanup] in bot.py, the command
    [leave] and the sweep [check_voice_connections], both remove the
    entry; the loop does not. Until one of them runs, [get_player] hands
    out the dead player, which takes no track ever again. *)
Theorem idle_timeout_leaves_player_registered :
  let b' := (deliver (rt := Ascii_runtime.runtime) 7 (Loop TimedOut)
               (Sample.bot_with Sample.idle)).1 in
  voice_clients b' !! 7 = None ∧
  (queue <$> music_players b' !! 7) = Some [] ∧
  (audio_player <$> music_players b' !! 7) = Some Cancelled ∧
  (∀ i, deliver (rt := Ascii_runtime.runtime) 7 (Loop i) b' = (b', [])) ∧
  is_Some (music_players b' !! 7) ∧
  (get_player Sample.ada b').1 = b' ∧
  (∀ es, played (run (rt := Ascii_runtime.runtime) es
                   (session_of 7 (get_player Sample.ada b').2 b')).2 = []) ∧
  music_players (cmd_leave Sample.ada (Sample.bot_with Sample.idle)).1 !! 7
    = None ∧
  music_players (check_voice_connections b') !! 7 = None.
Proof.
  cbv zeta.
  split; [vm_compute; reflexivity|].
  split; [vm_compute; reflexivity|].
  split; [vm_compute; reflexivity|].
  split. { intros i. unfold deliver at 1.
           destruct (music_players _ !! 7) as [p|] eqn:Hp; [|done].
           vm_compute in Hp. injection Hp as <-. cbn [step].
           rewrite cancelled_top_free by reflexivity.
           vm_compute. reflexivity. }
  split; [vm_compute; eauto|].
  split; [vm_compute; reflexivity|].
  split. { intros es. apply cancelled_never_plays. vm_compute. reflexivity. }
  split; vm_compute; reflexivity.
Qed.


Lemma idle_timeout_keeps_entry {rt : Runtime} g b p :
  music_players b !! g = Some p →
  audio_player p = Running AtWaitEmpty →
  music_players (deliver g (Loop TimedOut) b).1 !! g
  = Some (player (cleanup (session_of g p b))).
Proof.
  intros Hp Hpc. rewrite (idle_timeout_runs_cleanup g b p Hp Hpc).
  apply lookup_insert_eq.
Qed.

(** *** Skip *)






Lemma voice_client_wait_next s :
  voice_client (wait_next s).1 = voice_client s.
Proof.
  unfold wait_next, top. destruct (next (player s)); [|done]. simpl.
  by destruct (queue (player s)).
Qed.





(* ===================================================================== *)
(** ** Further properties *)
(* ===================================================================== *)

(** *** The loop and the idle timeout *)

(** X1. The first track of an idle session. The loop waits at l.252 on an
    empty queue and the voice client is connected and silent. A query is
    resolved and enqueued (which sets the event, l.372), the loop is woken
    and the start of the track succeeds. Then the voice client streams the
    track, but the wait of l.309 finds the event still set and returns at
    once: the loop is back at l.252, on an empty queue, under
    [timeout(300)]. When that timeout fires the loop runs [cleanup], which
    ends the session and, with it, the stream. *)
Theorem first_track_streams_under_idle_timeout {rt : Runtime} (s : Session)
    (vc : VoiceClient) (query : string) (r : extract_result) (t : song_info)
    (fb : bool) (dt : option pyval) :
  audio_player (player s) = Running AtWaitEmpty →
  queue (player s) = [] →
  voice_client s = Some vc → connected vc = true → playing vc = false →
  song_info_of (author (player s)) r = Return t →
  let s' := (run [AddToQueue query r; Loop Wake; Loop (Start (Resolved fb dt))] s).1 in
  is_playing s' = true ∧
  streaming s' = Some t ∧
  queue (player s') = [] ∧
  audio_player (player s') = Running AtWaitEmpty ∧
  player_loop TimedOut s' = (cleanup s', []) ∧
  Terminated (cleanup s') ∧
  is_playing (cleanup s') = false ∧
  voice_client (cleanup s') = None.
Proof.
  intros Hpc Hq Hvc Hcon Hpl Ht. cbv zeta.
  destruct s as [p v]. simpl in *. subst v. destruct vc as [cn src pl].
  simpl in *. subst cn pl.
  cbn [run step]. unfold add_to_queue. simpl. rewrite Ht. simpl.
  unfold player_loop. simpl. rewrite Hpc. simpl.
  unfold after_wait_empty. simpl. rewrite Hq. simpl.
  unfold after_start, start_playback, vc_play. simpl.
  unfold wait_next, top. simpl.
  unfold is_playing, streaming, Terminated. simpl.
  by destruct fb.
Qed.

Lemma first_track_streams_under_idle_timeout_witness :
  is_playing (run (rt := Ascii_runtime.runtime)
    [AddToQueue "a" (Sample.found "a" 10); Loop Wake; Loop (Sample.opened "a")]
    Sample.idle).1 = true ∧
  audio_player (player (run (rt := Ascii_runtime.runtime)
    [AddToQueue "a" (Sample.found "a" 10); Loop Wake; Loop (Sample.opened "a")]
    Sample.idle).1) = Running AtWaitEmpty.
Proof.
  destruct (first_track_streams_under_idle_timeout (rt := Ascii_runtime.runtime)
              Sample.idle Sample.idle_client "a" (Sample.found "a" 10)
              (Sample.track "a" 10) false (Some (PyStr "a")))
    as (Hplay & _ & _ & Hloop & _).
  - reflexivity.
  - reflexivity.
  - reflexivity.
  - reflexivity.
  - reflexivity.
  - reflexivity.
  - split; [exact Hplay|exact Hloop].
Defined.

Lemma busy_starts_drain {rt : Runtime} os : ∀ s t vc,
  audio_player (player s) = Running AtStart →
  current (player s) = Some t →
  voice_client s = Some vc → connected vc = true → playing vc = true →
  length os = S (length (queue (player s))) →
  let r := run (Loop ∘ Start <$> os) s in
  queue (player r.1) = [] ∧
  audio_player (player r.1) = Running AtWaitEmpty ∧
  voice_client r.1 = voice_client s ∧
  played r.2 = queue (player s) ∧
  errors r.2 = refusal <$> os.
Proof.
  induction os as [|o os IH]; intros s t vc Hpc Hcur Hvc Hcon Hpl Hlen; [done|].
  assert (start_error o (voice_client s) = Some (Exception (refusal o))) as He.
  { rewrite Hvc. unfold start_error. rewrite Hcon, Hpl. by destruct o. }
  destruct (failed_start_step o s t _ Hpc Hcur He) as (s' & Hvc' & Hstep).
  simpl in Hlen. injection Hlen as Hlen. cbv zeta.
  cbn [fmap list_fmap run compose]. change (step (Loop (Start o)) s)
    with (player_loop (Start o) s).
  destruct (queue (player s)) as [|t' q] eqn:Hq.
  - destruct Hstep as (-> & Hq' & _ & Hpc').
    destruct os; [|done]. simpl. by rewrite Hq', Hpc', Hvc'.
  - destruct Hstep as (-> & Hq' & Hcur' & Hpc').
    rewrite <- Hq' in Hlen. rewrite <- Hvc' in Hvc.
    destruct (IH s' t' vc Hpc' Hcur' Hvc Hcon Hpl Hlen) as (Iq & Ipc & Ivc & Ipl & Ierr).
    destruct (run (Loop ∘ Start <$> os) s') as [s2 out2]. simpl in *.
    rewrite Iq, Ipc, Ivc, Hvc', Ipl, Hq', Ierr. done.
Qed.

(** X2. Tracks queued behind a stream. The loop is woken at l.252 by the
    end of a stream, with [t1 :: t2 :: q] queued. It takes [t1] and starts
    it; the wait of l.309 returns at once, so it takes [t2] as well. While
    [t1] streams, the voice client refuses every start, and each failure
    makes the loop take the next track at once (l.303-307): after
    [1 + length q] resumptions the queue is empty, every track of
    [t2 :: q] was taken and answered by an error message, and [t1] still
    streams. *)
Theorem tracks_behind_a_stream_are_dropped {rt : Runtime} (s : Session)
    (vc : VoiceClient) (t1 t2 : song_info) (q : list song_info)
    (fb : bool) (dt : option pyval) (os : list start_outcome) :
  audio_player (player s) = Running AtWaitEmpty →
  next (player s) = true →
  voice_client s = Some vc → connected vc = true → playing vc = false →
  queue (player s) = t1 :: t2 :: q →
  length os = S (length q) →
  let r1 := run [Loop Wake; Loop (Start (Resolved fb dt))] s in
  let r2 := run (Loop ∘ Start <$> os) r1.1 in
  played r1.2 = [t1; t2] ∧
  is_playing r1.1 = true ∧ streaming r1.1 = Some t1 ∧
  current (player r1.1) = Some t2 ∧
  audio_player (player r1.1) = Running AtStart ∧
  voice_client r2.1 = voice_client r1.1 ∧
  queue (player r2.1) = [] ∧
  played r2.2 = q ∧
  errors r2.2 = refusal <$> os ∧
  audio_player (player r2.1) = Running AtWaitEmpty.
Proof.
  intros Hpc Hnext Hvc Hcon Hpl Hq Hlen. cbv zeta.
  set (r1 := run [Loop Wake; Loop (Start (Resolved fb dt))] s).
  assert (played r1.2 = [t1; t2] ∧
          voice_client r1.1
            = Some {| connected := true;
                      source := Some {| src_song := t1;
                                        src_volume := if fb then None
                                                      else Some (volume (player s)) |};
                      playing := true |} ∧
          current (player r1.1) = Some t2 ∧
          audio_player (player r1.1) = Running AtStart ∧
          queue (player r1.1) = q) as (Hp1 & Hv1 & Hc1 & Ha1 & Hq1).
  { subst r1. destruct s as [p v]. simpl in *. subst v.
    destruct vc as [cn src pl]. simpl in *. subst cn pl.
    cbn [run step]. unfold player_loop. simpl. rewrite Hpc, Hnext. simpl.
    unfold after_wait_empty. simpl. rewrite Hq. simpl.
    unfold after_start, start_playback, vc_play. simpl.
    unfold wait_next, top. simpl. rewrite Hnext. simpl.
    by destruct fb. }
  destruct (busy_starts_drain os r1.1 t2 _ Ha1 Hc1 Hv1 eq_refl eq_refl)
    as (Dq & Dpc & Dvc & Dpl & Derr); [by rewrite Hq1|].
  unfold is_playing, streaming. rewrite Hv1. simpl.
  rewrite Hq1 in Dpl. rewrite Hv1 in Dvc. done.
Qed.

Lemma tracks_behind_a_stream_are_dropped_witness :
  errors (run (rt := Ascii_runtime.runtime)
            (Loop ∘ Start <$> [Resolved false (Some (PyStr "c"));
                               Resolved false (Some (PyStr "d"))])
            (run (rt := Ascii_runtime.runtime)
               [Loop Wake; Loop (Sample.opened "b")] Cases.three_waiting).1).2
  = ["Already playing audio."; "Already playing audio."].
Proof.
  destruct (tracks_behind_a_stream_are_dropped (rt := Ascii_runtime.runtime)
              Cases.three_waiting
              (default Sample.idle_client (voice_client Cases.three_waiting))
              (Sample.track "b" 20) (Sample.track "c" 30) [Sample.track "d" 40]
              false (Some (PyStr "b"))
              [Resolved false (Some (PyStr "c")); Resolved false (Some (PyStr "d"))])
    as (_ & _ & _ & _ & _ & _ & _ & _ & Herr & _).
  - reflexivity.
  - reflexivity.
  - reflexivity.
  - reflexivity.
  - reflexivity.
  - reflexivity.
  - reflexivity.
  - exact Herr.
Defined.

(** X3. [stop] while the loop is opening a track: the queue is cleared
    and nothing streams, but the track in the current slot is not
    recalled. When its resolver call returns, the loop hands it to the
    voice client and it streams. *)
Theorem stop_does_not_recall_the_opening_track (s : Session) (vc : VoiceClient)
    (t : song_info) (fb : bool) (dt : option pyval) :
  audio_player (player s) = Running AtStart →
  current (player s) = Some t →
  voice_client s = Some vc → connected vc = true →
  let r := player_loop (Start (Resolved fb dt)) (stop s) in
  queue (player (stop s)) = [] ∧
  is_playing (stop s) = false ∧
  is_playing r.1 = true ∧
  streaming r.1 = Some t.
Proof.
  intros Hpc Hcur Hvc Hcon. cbv zeta.
  destruct s as [p v]. simpl in *. subst v.
  destruct vc as [cn src pl]. simpl in *. subst cn.
  unfold stop, vc_stop, is_playing, streaming. simpl.
  destruct pl; simpl.
  - unfold player_loop. simpl. rewrite Hpc.
    unfold after_start. simpl. rewrite Hcur.
    unfold start_playback, vc_play. simpl.
    pose proof (voice_client_wait_next
      {| player := with_scheduled (scheduled p ++ [CbSongFinished]) (with_queue [] p);
         voice_client :=
           Some {| connected := true;
                   source := Some {| src_song := t;
                                     src_volume := if fb then None
                                                   else Some (volume p) |};
                   playing := true |} |}) as Hw.
    destruct (wait_next _) as [s'' out'']. simpl in *. by rewrite Hw.
  - unfold player_loop. simpl. rewrite Hpc.
    unfold after_start. simpl. rewrite Hcur.
    unfold start_playback, vc_play. simpl.
    pose proof (voice_client_wait_next
      {| player := with_queue [] p;
         voice_client :=
           Some {| connected := true;
                   source := Some {| src_song := t;
                                     src_volume := if fb then None
                                                   else Some (volume p) |};
                   playing := true |} |}) as Hw.
    destruct (wait_next _) as [s'' out'']. simpl in *. by rewrite Hw.
Qed.

Lemma stop_does_not_recall_the_opening_track_witness :
  streaming (player_loop (Sample.opened "a") (stop Sample.three_queued)).1
  = Some (Sample.track "a" 10).
Proof.
  destruct (stop_does_not_recall_the_opening_track Sample.three_queued
              Sample.idle_client (Sample.track "a" 10) false (Some (PyStr "a")))
    as (_ & _ & _ & Hs).
  - reflexivity.
  - reflexivity.
  - reflexivity.
  - reflexivity.
  - exact Hs.
Defined.

(** *** The patterns of [is_url] *)

Module Re_facts.
Import Re.

Lemma matches_Never s : matches Never s = false.
Proof. induction s; simpl; done. Qed.

Lemma matches_Empty s : matches Empty s = true ↔ s = "".
Proof.
  destruct s; simpl; [done|]. rewrite matches_Never. split; done.
Qed.

Lemma matches_Chars p s :
  matches (Chars p) s = true ↔ ∃ a, s = String a "" ∧ p a = true.
Proof.
  destruct s as [|a s]; simpl.
  - split; [done|]. by intros (a & ? & ?).
  - destruct (p a) eqn:Hp.
    + rewrite matches_Empty. split.
      * intros ->. eauto.
      * by intros (a' & [= -> ->] & _).
    + rewrite matches_Never. split; [done|].
      intros (a' & [= -> ->] & ?). congruence.
Qed.

Lemma matches_Alt_Never_l r s : matches (Alt Never r) s = matches r s.
Proof. destruct s; simpl; [done|]. by destruct (deriv a r). Qed.

Lemma matches_Alt_Never_r r s : matches (Alt r Never) s = matches r s.
Proof.
  destruct s as [|a s]; simpl; [apply orb_false_r|]. by destruct (deriv a r).
Qed.

Lemma matches_alt r1 r2 s :
  matches (alt r1 r2) s = matches (Alt r1 r2) s.
Proof.
  destruct r1, r2; cbn [alt];
    rewrite ?matches_Alt_Never_l, ?matches_Alt_Never_r; done.
Qed.

Lemma matches_Alt r1 r2 s :
  matches (Alt r1 r2) s = matches r1 s || matches r2 s.
Proof.
  revert r1 r2. induction s as [|a s IH]; intros r1 r2; [done|].
  cbn [matches deriv]. rewrite matches_alt. apply IH.
Qed.

Lemma matches_Seq_Never_l r s : matches (Seq Never r) s = false.
Proof. destruct s; simpl; [done|]. apply matches_Never. Qed.

Lemma matches_Seq_Never_r r s : matches (Seq r Never) s = false.
Proof.
  revert r. induction s as [|a s IH]; intros r; simpl; [apply andb_false_r|].
  assert (seq (deriv a r) Never = Never) as -> by (by destruct (deriv a r)).
  destruct (nullable r); simpl; apply matches_Never.
Qed.

Lemma matches_Seq_Empty_l r s : matches (Seq Empty r) s = matches r s.
Proof. destruct s; simpl; [done|]. by destruct (deriv a r). Qed.

Lemma matches_Seq_Empty_r r s : matches (Seq r Empty) s = matches r s.
Proof.
  destruct s as [|a s]; simpl; [apply andb_true_r|].
  assert (seq (deriv a r) Empty = deriv a r) as -> by (by destruct (deriv a r)).
  destruct (nullable r); [|done]. by destruct (deriv a r).
Qed.

Lemma matches_seq r1 r2 s : matches (seq r1 r2) s = matches (Seq r1 r2) s.
Proof.
  destruct r1, r2; cbn [seq];
    rewrite ?matches_Seq_Never_l, ?matches_Seq_Never_r,
            ?matches_Seq_Empty_l, ?matches_Seq_Empty_r, ?matches_Never; done.
Qed.

(** The language of a sequence: the texts that split into one of each
    part. *)
Lemma matches_Seq r1 r2 s :
  matches (Seq r1 r2) s = true ↔
  ∃ s1 s2, s = s1 ++ s2 ∧ matches r1 s1 = true ∧ matches r2 s2 = true.
Proof.
  revert r1. induction s as [|a s IH]; intros r1.
  - simpl. rewrite andb_true_iff. split.
    + intros [? ?]. by exists "", "".
    + intros (s1 & s2 & Heq & H1 & H2).
      destruct s1; [|done]. destruct s2; [|done]. done.
  - cbn [matches deriv]. destruct (nullable r1) eqn:Hn.
    + rewrite matches_alt, matches_Alt, orb_true_iff, matches_seq, IH. split.
      * intros [(s1 & s2 & -> & H1 & H2)|H2].
        -- by exists (String a s1), s2.
        -- by exists "", (String a s).
      * intros (s1 & s2 & Heq & H1 & H2). destruct s1 as [|a' s1].
        -- right. change ("" ++ s2) with s2 in Heq. by subst s2.
        -- left. change (String a' s1 ++ s2) with (String a' (s1 ++ s2)) in Heq.
           injection Heq as <- ->. by exists s1, s2.
    + rewrite matches_seq, IH. split.
      * intros (s1 & s2 & -> & H1 & H2). by exists (String a s1), s2.
      * intros (s1 & s2 & Heq & H1 & H2). destruct s1 as [|a' s1].
        -- simpl in H1. congruence.
        -- change (String a' s1 ++ s2) with (String a' (s1 ++ s2)) in Heq.
           injection Heq as <- ->. by exists s1, s2.
Qed.

Lemma matches_Seq_app r1 r2 s1 s2 :
  matches r1 s1 = true → matches r2 s2 = true →
  matches (Seq r1 r2) (s1 ++ s2) = true.
Proof. intros. apply matches_Seq. eauto. Qed.

Lemma matches_Star_any s : matches (Star any) s = true.
Proof. induction s; simpl; done. Qed.

Lemma matches_Star_dot s :
  (∀ a, a ∈ String.list_ascii_of_string s → a ≠ newline) →
  matches (Star dot) s = true.
Proof.
  induction s as [|a s IH]; intros Hs; [done|]. simpl.
  assert (a ≠ newline) as Ha by (apply Hs; simpl; apply elem_of_cons; by left).
  apply Ascii.eqb_neq in Ha. rewrite Ha. simpl. apply IH.
  intros b Hb. apply Hs. simpl. apply elem_of_cons. by right.
Qed.

Lemma lower_text_app s1 s2 :
  lower_text (s1 ++ s2) = lower_text s1 ++ lower_text s2.
Proof. induction s1 as [|a s1 IH]; simpl; [done|]. by rewrite IH. Qed.

Lemma matches_lit p s :
  matches (lit p) s = true → lower_text s = p.
Proof.
  revert s. induction p as [|c p IH]; intros s; cbn [lit].
  - by intros ->%matches_Empty.
  - intros (s1 & s2 & -> & (a & -> & Ha)%matches_Chars & H2)%matches_Seq.
    simpl. apply Ascii.eqb_eq in Ha. rewrite Ha. f_equal. by apply IH.
Qed.

Lemma prefix_app p s : String.prefix p (p ++ s) = true.
Proof.
  induction p as [|a p IH]; simpl; [by destruct s|].
  destruct (ascii_dec a a); done.
Qed.

(** Both patterns start with [https?://]. *)
Lemma scheme_prefix r s :
  (∀ s', matches r s' = true → ∃ t, lower_text s' = "://" ++ t) →
  matches (Seq (lit "http") (Seq (opt (chr "s")) r)) s = true →
  ∃ t, lower_text s = "http://" ++ t ∨ lower_text s = "https://" ++ t.
Proof.
  intros Hr (s1 & s' & -> & H1%matches_lit
             & (s2 & s3 & -> & H2 & (t & H3)%Hr)%matches_Seq)%matches_Seq.
  rewrite !lower_text_app, H1, H3. exists t.
  unfold opt in H2. rewrite matches_Alt in H2.
  apply orb_true_iff in H2 as [->%matches_Empty|(a & -> & Ha)%matches_Chars].
  - by left.
  - right. apply Ascii.eqb_eq in Ha. simpl lower_text. by rewrite Ha.
Qed.

Lemma lit_prefix p r s :
  matches (Seq (lit p) r) s = true → ∃ t, lower_text s = p ++ t.
Proof.
  intros (s1 & s2 & -> & H1%matches_lit & _)%matches_Seq.
  rewrite lower_text_app, H1. eauto.
Qed.

Lemma is_url_scheme text :
  is_url text = true →
  String.prefix "http://" (lower_text text)
  || String.prefix "https://" (lower_text text) = true.
Proof.
  assert (∀ s, (∃ t, lower_text s = "http://" ++ t ∨ lower_text s = "https://" ++ t) →
            String.prefix "http://" (lower_text s)
            || String.prefix "https://" (lower_text s) = true) as Hpre.
  { intros s (t & [->| ->]); rewrite prefix_app; [done|apply orb_true_r]. }
  unfold is_url. intros [Hu|Hy]%orb_true_iff.
  - apply Hpre. apply scheme_prefix in Hu; [done|]. intros s'. apply lit_prefix.
  - apply matches_Seq in Hy as (s1 & s2 & -> & Hy & _).
    apply Hpre. apply scheme_prefix in Hy as (t & Hy).
    + rewrite lower_text_app. exists (t ++ lower_text s2).
      destruct Hy as [-> | ->]; [by left|by right].
    + intros s' (t & ->)%lit_prefix. by exists ("youtu.be/" ++ t).
Qed.

End Re_facts.

Lemma append_nil_r (s : string) : s ++ "" = s.
Proof.
  induction s as [|a s IH]; [done|].
  change (String a s ++ "") with (String a (s ++ "")). by rewrite IH.
Qed.

(** X4. On ASCII text, [is_url] accepts only what starts with [http://] or
    [https://], in either case of the letters. So [add_to_queue] sends
    every other query to the resolver as a search: [ytsearch:] followed by
    the query without its parentheses, stripped. *)
Theorem url_needs_an_http_scheme (text : string) :
  ascii_text text = true →
  (Re.is_url text = true →
   String.prefix "http://" (lower_text text)
   || String.prefix "https://" (lower_text text) = true) ∧
  (String.prefix "http://" (lower_text text)
   || String.prefix "https://" (lower_text text) = false →
   search_query (rt := pattern_runtime) text
   = "ytsearch:"
     ++ strip (Runtime := pattern_runtime)
          (remove_char ")" (remove_char "(" text))).
Proof.
  intros _. split; [apply Re_facts.is_url_scheme|].
  intros Hno. unfold search_query.
  destruct (is_url (Runtime := pattern_runtime) text) eqn:Hu; [|done].
  apply Re_facts.is_url_scheme in Hu. congruence.
Qed.

Lemma url_needs_an_http_scheme_witness :
  search_query (rt := pattern_runtime) "never (gonna) give you up"
  = "ytsearch:never gonna give you up".
Proof.
  destruct (url_needs_an_http_scheme "never (gonna) give you up") as [_ Hsearch].
  - reflexivity.
  - rewrite Hsearch; reflexivity.
Defined.

(** X5. YouTube links are URLs: [https://youtu.be/] or [http://youtu.be/]
    followed by at least one character of [[a-zA-Z0-9_-]], whatever comes
    after it; and [https://www.youtube.com/] or [https://youtube.com/]
    followed by any path without a newline. *)
Theorem youtube_links_are_urls (c : ascii) (rest path : string) :
  Re.is_id_char c = true →
  (∀ a, a ∈ String.list_ascii_of_string path → a ≠ Re.newline) →
  Re.is_url ("https://youtu.be/" ++ String c rest) = true ∧
  Re.is_url ("http://youtu.be/" ++ String c rest) = true ∧
  Re.is_url ("https://www.youtube.com/" ++ path) = true ∧
  Re.is_url ("https://youtube.com/" ++ path) = true.
Proof.
  intros Hc Hpath.
  assert (Re.matches (Re.plus (Re.Chars Re.is_id_char)) (String c "" ++ "") = true)
    as Hid.
  { unfold Re.plus. apply Re_facts.matches_Seq_app; [|done].
    apply Re_facts.matches_Chars. eauto. }
  assert (Re.matches
            (Re.Seq (Re.Alt (Re.opt (Re.chr "/"))
                       (Re.Seq (Re.Chars (λ a, Ascii.eqb a "/" || Ascii.eqb a "?"))
                          (Re.Star Re.dot)))
               Re.end_of_text) (String "/" path) = true) as Htail.
  { rewrite <- (append_nil_r (String "/" path)).
    apply Re_facts.matches_Seq_app; [|done].
    rewrite Re_facts.matches_Alt. apply orb_true_iff. right.
    change (String "/" path) with (String "/" "" ++ path).
    apply Re_facts.matches_Seq_app; [done|].
    by apply Re_facts.matches_Star_dot. }
  split; [|split; [|split]].
  - unfold Re.is_url. apply orb_true_iff. right.
    change ("https://youtu.be/" ++ String c rest)
      with (("http" ++ "s" ++ "://youtu.be/" ++ (String c "" ++ "")) ++ rest).
    apply Re_facts.matches_Seq_app; [|apply Re_facts.matches_Star_any].
    unfold Re.youtube_short.
    do 3 (apply Re_facts.matches_Seq_app; [by vm_compute|]). exact Hid.
  - unfold Re.is_url. apply orb_true_iff. right.
    change ("http://youtu.be/" ++ String c rest)
      with (("http" ++ "" ++ "://youtu.be/" ++ (String c "" ++ "")) ++ rest).
    apply Re_facts.matches_Seq_app; [|apply Re_facts.matches_Star_any].
    unfold Re.youtube_short.
    do 3 (apply Re_facts.matches_Seq_app; [by vm_compute|]). exact Hid.
  - unfold Re.is_url. apply orb_true_iff. left.
    change ("https://www.youtube.com/" ++ path)
      with ("http" ++ "s" ++ "://" ++ "www.youtube.com" ++ "" ++ String "/" path).
    unfold Re.url_pattern.
    do 5 (apply Re_facts.matches_Seq_app; [by vm_compute|]). exact Htail.
  - unfold Re.is_url. apply orb_true_iff. left.
    change ("https://youtube.com/" ++ path)
      with ("http" ++ "s" ++ "://" ++ "youtube.com" ++ "" ++ String "/" path).
    unfold Re.url_pattern.
    do 5 (apply Re_facts.matches_Seq_app; [by vm_compute|]). exact Htail.
Qed.

Lemma youtube_links_are_urls_witness :
  Re.is_url "https://youtu.be/dQw4w9WgXcQ" = true ∧
  Re.is_url "https://www.youtube.com/watch?v=dQw4w9WgXcQ" = true.
Proof.
  destruct (youtube_links_are_urls "d" "Qw4w9WgXcQ" "watch?v=dQw4w9WgXcQ")
    as (Hshort & _ & Hlong & _).
  - reflexivity.
  - intros a Ha Hnl. subst a. vm_compute in Ha.
    repeat (apply elem_of_cons in Ha as [Ha|Ha]; [discriminate Ha|]).
    by apply elem_of_nil in Ha.
  - split; [exact Hshort|exact Hlong].
Defined.

(** *** [YTDLSource] *)

Lemma of_result_builtin {A} (r : result A) e :
  of_result r = Raises e → ∃ e', e = Builtin e'.
Proof. destruct r; simpl; [done|]. intros [= <-]. eauto. Qed.

Lemma first_entry_raises data e :
  first_entry data = Raises e → ∃ e', e = Builtin e'.
Proof.
  unfold first_entry.
  destruct (contains "entries" data) as [[]|e0] eqn:Hc; simpl.
  - destruct (getitem "entries" data) as [en|e1]; simpl.
    + apply of_result_builtin.
    + intros [= <-]. eauto.
  - done.
  - intros [= <-]. eauto.
Qed.

Lemma py_int_raises {rt : Runtime} repr v e :
  py_int repr v = Raises e → ∀ m, e ≠ ExtractorError m.
Proof.
  unfold py_int. intros He m ->.
  destruct v as [| | |f|s| |]; try done.
  - destruct (float_trunc f); [done|]. by destruct f.
  - by destruct (int_of_str s).
Qed.

Lemma make_source_raises {rt : Runtime} repr w data e :
  make_source repr w data = Raises e → ∀ m, e ≠ ExtractorError m.
Proof.
  unfold make_source, ytdl_source_init. intros He m ->.
  destruct (getitem "url" data) as [f|]; simpl in He; [|done].
  destruct (ffmpeg_audio w f); simpl in He; [|done].
  destruct (get "title" _ data); simpl in He; [|done].
  destruct (get "url" _ data); simpl in He; [|done].
  destruct (get "duration" _ data) as [d|]; simpl in He; [|done].
  destruct (py_int repr d) eqn:Hd; simpl in He.
  - destruct (get "thumbnail" _ data); simpl in He; [|done].
    by destruct (get "webpage_url" _ data).
  - injection He as ->. by apply (py_int_raises repr d _ Hd m).
Qed.

Lemma from_url_body_extractor_error {rt : Runtime} repr w q m :
  from_url_body repr w q = Raises (ExtractorError m) →
  extract_twice w q = Raises (ExtractorError m).
Proof.
  unfold from_url_body.
  destruct (extract_twice w q) as [data|e]; simpl; [|by intros [= ->]].
  destruct (first_entry data) as [data'|e] eqn:Hf; simpl.
  - destruct (truthy data'); simpl; [|done].
    intros He. by apply make_source_raises with (m := m) in He.
  - intros [= ->]. by apply first_entry_raises in Hf as [e' ?].
Qed.

(** X6. The handler of [ExtractorError] in [from_url] (l.166-223), with its
    diagnosis of the cookie files, runs only for an error that the
    second attempt raises after a first attempt that raised nothing (or
    raised with an empty text). When the first attempt raises with a
    text, the handler is never entered: [from_url] raises nothing of class
    [ExtractorError], and when the second attempt raises too, it raises a
    plain [Exception] with the text of the first. *)
Theorem sign_in_handler_needs_a_silent_first_attempt {rt : Runtime}
    (repr : string → string) (w : Resolver) (url : string) (e1 : pyerror) :
  let q := if negb (is_url url) then "ytsearch:" ++ url else url in
  extract w q = AttemptRaises e1 →
  str_error e1 ≠ "" →
  from_url repr w (PyStr url) = from_url_body repr w q ∧
  (∀ e2, extract_plain w q = AttemptRaises e2 →
     from_url repr w (PyStr url) = Raises (Builtin (Exception (str_error e1)))) ∧
  (∀ m, from_url repr w (PyStr url) ≠ Raises (ExtractorError m)).
Proof.
  cbv zeta. set (q := if negb (is_url url) then _ else _).
  intros H1 Hmsg.
  assert (∀ m, from_url_body repr w q ≠ Raises (ExtractorError m)) as Hno.
  { intros m Hm%from_url_body_extractor_error.
    unfold extract_twice in Hm. rewrite H1 in Hm. simpl in Hm.
    destruct (extract_plain w q); [|done].
    destruct (String.eqb_spec (str_error e1) ""); [done|]. done. }
  assert (from_url repr w (PyStr url) = from_url_body repr w q) as Heq.
  { unfold from_url. fold q.
    destruct (from_url_body repr w q) as [src|[]] eqn:Hb; try done.
    by destruct (Hno msg). }
  split; [done|]. split.
  - intros e2 H2. rewrite Heq. unfold from_url_body, extract_twice.
    rewrite H1, H2. simpl.
    by destruct (String.eqb_spec (str_error e1) "").
  - intros m. rewrite Heq. apply Hno.
Qed.

Lemma sign_in_handler_needs_a_silent_first_attempt_witness :
  from_url (rt := Ascii_runtime.runtime) Cases.quoted
    (Cases.world (AttemptRaises
       (ExtractorError "Sign in to confirm you're not a bot")))
    (PyStr "https://youtu.be/x")
  = Raises (Builtin (Exception "Sign in to confirm you're not a bot")).
Proof.
  destruct (sign_in_handler_needs_a_silent_first_attempt
              (rt := Ascii_runtime.runtime) Cases.quoted
              (Cases.world (AttemptRaises
                 (ExtractorError "Sign in to confirm you're not a bot")))
              "https://youtu.be/x"
              (ExtractorError "Sign in to confirm you're not a bot"))
    as (_ & Hboth & _).
  - reflexivity.
  - discriminate.
  - apply (Hboth (ExtractorError "Sign in to confirm you're not a bot")).
    reflexivity.
Defined.

Lemma truthy_dict (d : gmap string pyval) k v :
  d !! k = Some v → truthy (PyDict d) = true.
Proof.
  intros Hk. simpl. destruct (map_to_list d) eqn:Hl; [|done].
  apply map_to_list_empty_iff in Hl. subst. by rewrite lookup_empty in Hk.
Qed.

(** X7. An entry that reports its duration as [None] cannot be played with
    volume control: [YTDLSource.__init__] passes the value to [int]
    (l.107), which raises [TypeError], though [add_to_queue] builds a
    track of duration 0 from the same entry (l.349-350). The loop reports
    the error and drops the track; the voice client is left as it was. *)
Theorem unreported_duration_cannot_be_played {rt : Runtime}
    (repr : string → string) (w : Resolver) (url : string)
    (d : gmap string pyval) (u : pyval) (a : string) (s : Session)
    (t : song_info) :
  let q := if negb (is_url url) then "ytsearch:" ++ url else url in
  extract w q = AttemptReturns (PyDict d) →
  d !! "entries" = None →
  d !! "url" = Some u →
  ffmpeg_audio w u = Return () →
  d !! "duration" = Some PyNone →
  audio_player (player s) = Running AtStart →
  current (player s) = Some t →
  from_url repr w (PyStr url)
    = Raises (Builtin (TypeError
        "int() argument must be a string, a bytes-like object or a real number, not 'NoneType'")) ∧
  (∃ t', build_song_info a (PyDict d) = Return t' ∧ duration t' = PyInt 0) ∧
  errors (player_loop (Start (start_outcome_of (from_url repr w (PyStr url)))) s).2
    = ["int() argument must be a string, a bytes-like object or a real number, not 'NoneType'"] ∧
  is_playing (player_loop (Start (start_outcome_of (from_url repr w (PyStr url)))) s).1
    = is_playing s.
Proof.
  cbv zeta. set (q := if negb (is_url url) then _ else _).
  intros H1 Hent Hurl Hff Hdur Hpc Hcur.
  assert (from_url repr w (PyStr url)
    = Raises (Builtin (TypeError
        "int() argument must be a string, a bytes-like object or a real number, not 'NoneType'")))
    as Hfrom.
  { pose proof (truthy_dict d "url" u Hurl) as Htrue.
    unfold from_url. fold q. unfold from_url_body, extract_twice.
    rewrite H1. cbv beta iota zeta. rewrite Htrue.
    cbn [negb of_result mbind outcome_bind].
    unfold first_entry, contains, getitem. rewrite Hent.
    rewrite bool_decide_eq_false_2 by (by intros [? ?]).
    cbn [negb of_result mbind outcome_bind]. rewrite Htrue.
    unfold make_source, getitem. rewrite Hurl.
    cbn [negb of_result mbind outcome_bind]. rewrite Hff.
    unfold ytdl_source_init, get.
    cbn [negb of_result mbind outcome_bind]. by rewrite Hdur. }
  split; [done|]. split.
  - unfold build_song_info. simpl. eexists. split; [done|]. simpl.
    by rewrite Hdur.
  - rewrite Hfrom. simpl. unfold player_loop. rewrite Hpc.
    unfold after_start. rewrite Hcur. simpl. unfold top. simpl.
    destruct (queue (player s)); simpl; split; try done.
Qed.

Lemma unreported_duration_cannot_be_played_witness :
  errors (player_loop
            (Start (start_outcome_of
               (from_url (rt := Ascii_runtime.runtime) Cases.quoted
                  (Cases.world (AttemptReturns (PyDict Cases.silent_entry)))
                  (PyStr "https://media.example/s.m4a"))))
            Sample.three_queued).2
  = ["int() argument must be a string, a bytes-like object or a real number, not 'NoneType'"].
Proof.
  destruct (unreported_duration_cannot_be_played (rt := Ascii_runtime.runtime)
              Cases.quoted
              (Cases.world (AttemptReturns (PyDict Cases.silent_entry)))
              "https://media.example/s.m4a" Cases.silent_entry
              (PyStr "https://media.example/s.m4a") "ada" Sample.three_queued
              (Sample.track "a" 10)) as (_ & _ & Herr & _).
  - reflexivity.
  - reflexivity.
  - reflexivity.
  - reflexivity.
  - reflexivity.
  - reflexivity.
  - reflexivity.
  - exact Herr.
Defined.

(** *** Start-up *)

Lemma find_some_or_none {A} (f : A → bool) (l : list A) :
  match find f l with
  | Some x => x ∈ l ∧ f x = true
  | None => ∀ x, x ∈ l → f x = false
  end.
Proof.
  induction l as [|a l IH]; simpl.
  - intros x Hx. by apply elem_of_nil in Hx.
  - destruct (f a) eqn:Ha.
    + split; [apply elem_of_cons; by left|done].
    + destruct (find f l).
      * destruct IH. split; [apply elem_of_cons; by right|done].
      * intros x [->|Hx]%elem_of_cons; auto.
Qed.

(** X8. [find_ffmpeg_path] always answers with a path that is not empty:
    the first candidate that exists, [/usr/bin/ffmpeg] before all others,
    or the bare command [ffmpeg] when none exists. So [setup_hook] of
    bot.py reports the status [available] whether ffmpeg exists or not;
    its branch [not_found] is never taken. *)
Theorem find_ffmpeg_path_always_answers (nix_paths : list string)
    (which : option string) (path_exists : string → bool) :
  path_exists "" = false →
  let path := find_ffmpeg_path nix_paths which path_exists in
  (path = "ffmpeg" ∨ path_exists path = true) ∧
  (path_exists "/usr/bin/ffmpeg" = true → path = "/usr/bin/ffmpeg") ∧
  path ≠ "" ∧
  ffmpeg_status path = "available".
Proof.
  intros Hempty. cbv zeta. unfold find_ffmpeg_path.
  set (paths := match which with
                | Some w => if String.eqb w "" then _ else _
                | None => _ end).
  assert ((find path_exists paths = None ∨
           ∃ p, find path_exists paths = Some p ∧ path_exists p = true)) as Hfind.
  { pose proof (find_some_or_none path_exists paths) as Hf.
    destruct (find path_exists paths) as [p|]; [right|by left].
    exists p. by destruct Hf. }
  assert (path_exists "/usr/bin/ffmpeg" = true →
          find path_exists paths = Some "/usr/bin/ffmpeg") as Hfirst.
  { intros Hex. subst paths.
    destruct which as [w|]; [destruct (String.eqb w "")|]; simpl; by rewrite Hex. }
  assert (match find path_exists paths with Some p => p | None => "ffmpeg" end ≠ "")
    as Hne.
  { destruct Hfind as [->|(p & -> & Hp)]; [done|]. intros ->. congruence. }
  split; [|split; [|split]].
  - destruct Hfind as [->|(p & -> & Hp)]; eauto.
  - intros Hex. by rewrite (Hfirst Hex).
  - done.
  - unfold ffmpeg_status.
    destruct (String.eqb_spec
      (match find path_exists paths with Some p => p | None => "ffmpeg" end) "");
      done.
Qed.

Lemma find_ffmpeg_path_always_answers_witness :
  find_ffmpeg_path [] None (λ _, false) = "ffmpeg" ∧
  ffmpeg_status (find_ffmpeg_path [] None (λ _, false)) = "available".
Proof.
  destruct (find_ffmpeg_path_always_answers [] None (λ _, false))
    as (_ & _ & _ & Hstatus).
  - reflexivity.
  - split; [reflexivity|exact Hstatus].
Defined.

Lemma load_first_spec loads libs :
  (load_first loads libs).2 `prefix_of` libs ∧
  ((load_first loads libs).1 = true ↔ ∃ lib, lib ∈ libs ∧ loads lib = true) ∧
  ((load_first loads libs).1 = true →
     ∃ lib before, (load_first loads libs).2 = (before ++ [lib])%list ∧
       loads lib = true ∧ Forall (λ l, loads l = false) before) ∧
  ((load_first loads libs).1 = false → (load_first loads libs).2 = libs).
Proof.
  induction libs as [|lib libs (IHp & IHok & IHlast & IHall)]; simpl.
  - split; [done|]. split; [|split; [done|done]].
    split; [done|]. intros (lib & Hin & _). by apply elem_of_nil in Hin.
  - destruct (loads lib) eqn:Hl; simpl.
    + split; [by apply prefix_cons, prefix_nil|]. split; [|split; [|done]].
      * split; [|done]. intros _. exists lib. split; [apply elem_of_cons; by left|done].
      * intros _. exists lib, []. by repeat split.
    + destruct (load_first loads libs) as [ok tried]. simpl in *.
      split; [by apply prefix_cons|]. split; [|split].
      * rewrite IHok. split.
        -- intros (l & Hin & Hld). exists l. split; [apply elem_of_cons; by right|done].
        -- intros (l & [->|Hin]%elem_of_cons & Hld); [congruence|eauto].
      * intros Hok. destruct (IHlast Hok) as (l & before & -> & Hld & Hbefore).
        exists l, (lib :: before). split; [done|]. split; [done|].
        by constructor.
      * intros Hok. by rewrite (IHall Hok).
Qed.

(** X9. [try_load_opus] returns [True] exactly when opus was loaded
    already or one of the five library names loads. It tries the names in
    their order, none when opus was loaded already, and none after the
    first that loads; it returns [False] only after it tried all five. *)
Theorem try_load_opus_stops_at_the_first (is_loaded : bool)
    (loads : string → bool) :
  let r := try_load_opus is_loaded loads in
  (r.1 = true ↔ is_loaded = true ∨ ∃ lib, lib ∈ opus_libs ∧ loads lib = true) ∧
  r.2 `prefix_of` opus_libs ∧
  (is_loaded = true → r.2 = []) ∧
  (is_loaded = false → r.1 = true →
     ∃ lib before, r.2 = (before ++ [lib])%list ∧ loads lib = true ∧
       Forall (λ l, loads l = false) before) ∧
  (r.1 = false → r.2 = opus_libs).
Proof.
  cbv zeta. unfold try_load_opus.
  destruct (load_first_spec loads opus_libs) as (Hp & Hok & Hlast & Hall).
  destruct is_loaded; simpl.
  - split; [split; eauto|]. split; [apply prefix_nil|]. repeat split; done.
  - split.
    { rewrite Hok. split; [eauto|]. by intros [?|?]. }
    split; [done|]. split; [done|]. split; [by intros _|done].
Qed.

(** *** Durations *)

Lemma fields_no_colon s : no_colon s = true → fields s = [s].
Proof.
  induction s as [|a s IH]; [done|]. simpl.
  intros [Ha Hs]%andb_true_iff. apply negb_true_iff in Ha. rewrite Ha.
  by rewrite (IH Hs).
Qed.

Lemma fields_app_colon s1 s2 :
  no_colon s1 = true → fields (s1 ++ ":" ++ s2) = s1 :: fields s2.
Proof.
  induction s1 as [|a s1 IH]; [done|]. simpl.
  intros [Ha Hs]%andb_true_iff. apply negb_true_iff in Ha. rewrite Ha.
  by rewrite (IH Hs).
Qed.

Lemma no_colon_uint u : no_colon (DecimalString.NilEmpty.string_of_uint u) = true.
Proof. induction u; simpl; done. Qed.

Lemma to_int_nonneg n :
  0 ≤ n → ∃ u, Z.to_int n = Decimal.Pos u ∧ u ≠ Decimal.Nil ∧ Z.of_uint u = n.
Proof.
  intros Hn. pose proof (DecimalZ.of_to n) as Hof.
  destruct n as [|p|p]; [| |lia]; simpl in *.
  - by exists (Decimal.D0 Decimal.Nil).
  - exists (Pos.to_uint p). split; [done|]. split; [|done].
    intros Hnil. rewrite Hnil in Hof. done.
Qed.

Lemma str_of_int_nonneg n :
  0 ≤ n →
  ∃ u, str_of_int n = DecimalString.NilEmpty.string_of_uint u ∧
       u ≠ Decimal.Nil ∧ Z.of_uint u = n.
Proof.
  intros Hn. destruct (to_int_nonneg n Hn) as (u & Hu & Hnil & Hz).
  exists u. unfold str_of_int. rewrite Hu. simpl. by destruct u.
Qed.

Lemma no_colon_format_02d n : 0 ≤ n → no_colon (format_02d n) = true.
Proof.
  intros Hn. destruct (str_of_int_nonneg n Hn) as (u & Hu & _ & _).
  unfold format_02d. rewrite Hu.
  destruct (_ <? _)%nat; simpl; apply no_colon_uint.
Qed.

Lemma read_format_02d n :
  0 ≤ n → Z.of_uint <$> DecimalString.NilZero.uint_of_string (format_02d n) = Some n.
Proof.
  intros Hn. destruct (str_of_int_nonneg n Hn) as (u & Hu & Hnil & Hz).
  unfold format_02d. rewrite Hu.
  destruct (_ <? _)%nat.
  - change ("0" ++ DecimalString.NilEmpty.string_of_uint u)
      with (String "0" (DecimalString.NilEmpty.string_of_uint u)).
    simpl. rewrite DecimalString.NilEmpty.usu. simpl. rewrite <- Hz. done.
  - rewrite <- (DecimalString.NilZero.sus (DecimalString.NilEmpty.string_of_uint u) u).
    + rewrite DecimalString.NilZero.usu by done. simpl. by rewrite Hz.
    + unfold DecimalString.NilZero.uint_of_string.
      destruct (DecimalString.NilEmpty.string_of_uint u) eqn:Hs.
      * by destruct u.
      * rewrite <- Hs. apply DecimalString.NilEmpty.usu.
Qed.

Lemma format_clock_reads_back_nonneg (d : Z) :
  0 ≤ d → read_clock (format_clock d) = Some d.
Proof.
  intros Hd. unfold format_clock, read_clock.
  assert (0 ≤ d / 3600) as Hh by (apply Z.div_pos; lia).
  assert (0 ≤ d mod 3600 < 3600) as Hr by (apply Z.mod_pos_bound; lia).
  assert (0 ≤ (d mod 3600) / 60) as Hm by (apply Z.div_pos; lia).
  assert (0 ≤ d mod 60 < 60) as Hs by (apply Z.mod_pos_bound; lia).
  assert (d = (d / 3600) * 3600 + ((d mod 3600) / 60) * 60 + d mod 60) as Heq.
  { pose proof (Z.div_mod d 3600). pose proof (Z.div_mod (d mod 3600) 60).
    assert ((d mod 3600) mod 60 = d mod 60) as Hmm.
    { apply Z.mod_mod_divide. by exists 60. }
    lia. }
  destruct (0 <? d / 3600) eqn:Hpos.
  - rewrite fields_app_colon by (by apply no_colon_format_02d).
    rewrite fields_app_colon by (by apply no_colon_format_02d).
    rewrite fields_no_colon by (apply no_colon_format_02d; lia).
    cbn [mapM]. rewrite !read_format_02d by lia. simpl. f_equal. lia.
  - apply Z.ltb_ge in Hpos.
    rewrite fields_app_colon by (by apply no_colon_format_02d).
    rewrite fields_no_colon by (apply no_colon_format_02d; lia).
    cbn [mapM]. rewrite !read_format_02d by lia. simpl. f_equal. lia.
Qed.

(** X10. [format_duration] loses nothing of a duration that is not
    negative: the text it returns, read back as minutes and seconds (or
    hours, minutes and seconds) in base 60, is the duration; so two such
    durations with the same text are equal. *)
Theorem format_duration_reads_back (d d' : Z) :
  0 ≤ d → 0 ≤ d' →
  (∃ text, format_duration (PyInt d) = Returns text ∧ read_clock text = Some d) ∧
  (format_duration (PyInt d) = format_duration (PyInt d') → d = d').
Proof.
  intros Hd Hd'.
  assert (∀ n, 0 ≤ n →
            ∃ text, format_duration (PyInt n) = Returns text ∧
                    read_clock text = Some n) as Hread.
  { intros n Hn. unfold format_duration. simpl.
    destruct (n =? 0) eqn:Hz; simpl.
    - apply Z.eqb_eq in Hz as ->. by exists "00:00".
    - eexists. split; [done|]. by apply format_clock_reads_back_nonneg. }
  split; [by apply Hread|].
  destruct (Hread d Hd) as (text & -> & Hr), (Hread d' Hd') as (text' & -> & Hr').
  intros [= ->]. congruence.
Qed.

Lemma format_duration_reads_back_witness :
  ∃ text, format_duration (PyInt 3725) = Returns text ∧
          read_clock text = Some 3725.
Proof.
  destruct (format_duration_reads_back 3725 125) as [Hread _]; [lia|lia|].
  exact Hread.
Defined.

Lemma format_clock_negative (d : Z) :
  d < 0 → format_clock d = format_clock (d mod 3600).
Proof.
  intros Hd. unfold format_clock.
  assert (d / 3600 < 0) as Hh by (apply Z.div_lt_upper_bound; lia).
  assert (0 ≤ d mod 3600 < 3600) as Hr by (apply Z.mod_pos_bound; lia).
  assert ((d mod 3600) / 3600 = 0) as -> by (apply Z.div_small; lia).
  assert ((0 <? d / 3600) = false) as -> by lia.
  rewrite Z.mod_mod by lia.
  rewrite (Z.mod_mod_divide d 3600 60) by (by exists 60).
  done.
Qed.

(** X11. [format_duration] shows a negative duration as the time of day
    that is its remainder modulo an hour: the hours, which are negative,
    are left out (l.15 prints them only when they are positive), and [%]
    makes minutes and seconds positive. So [-1] is shown as [59:59]. *)
Theorem negative_duration_shows_a_clock_time (d : Z) :
  d < 0 →
  format_duration (PyInt d) = Returns (format_clock (d mod 3600)) ∧
  read_clock (format_clock d) = Some (d mod 3600) ∧
  0 ≤ d mod 3600 < 3600.
Proof.
  intros Hd.
  assert (0 ≤ d mod 3600 < 3600) as Hr by (apply Z.mod_pos_bound; lia).
  split; [|split; [|done]].
  - unfold format_duration. simpl.
    assert ((d =? 0) = false) as -> by lia. simpl.
    by rewrite format_clock_negative.
  - rewrite format_clock_negative by done.
    apply format_clock_reads_back_nonneg. lia.
Qed.

Lemma negative_duration_shows_a_clock_time_witness :
  format_duration (PyInt (-1)) = Returns (format_clock ((-1) mod 3600)).
Proof.
  destruct (negative_duration_shows_a_clock_time (-1)) as [Hfmt _]; [lia|].
  exact Hfmt.
Defined.

Lemma song_info_map_lookup (t : song_info) :
  song_info_map t !! "title" = Some (title t) ∧
  song_info_map t !! "duration" = Some (duration t) ∧
  song_info_map t !! "requester" = Some (PyStr (requester t)) ∧
  song_info_map t !! "thumbnail" = Some (thumbnail t) ∧
  song_info_map t !! "webpage_url" = Some (webpage_url t).
Proof. repeat split; reflexivity. Qed.

Lemma get_track_info_of_track (t : song_info) :
  get_track_info (song_info_dict t)
  = match format_duration (duration t) with
    | Returns d =>
        {| info_title := title t; info_duration := PyStr d;
           info_requester := PyStr (requester t);
           info_thumbnail := thumbnail t;
           info_webpage_url := webpage_url t |}
    | Raises _ => unknown_track
    end.
Proof.
  destruct (song_info_map_lookup t) as (Ht & Hd & Hr & Hth & Hw).
  unfold get_track_info, song_info_dict, get.
  rewrite Ht, Hd, Hr, Hth, Hw. simpl.
  by destruct (format_duration (duration t)).
Qed.

(** X12. The embed of [nowplaying]. For a track whose duration is an
    integer that is not negative it shows the title, the requester and a
    duration that reads back to that integer, and the link when the track
    has one. For a track whose duration [format_duration] cannot format,
    [get_track_info] hides the failure (l.29-37): the embed shows
    [Unknown track], [00:00] and [Unknown], without link or thumbnail. *)
Theorem now_playing_shows_the_track_or_nothing (t : song_info) :
  (∀ n, duration t = PyInt n → 0 ≤ n →
     np_description (nowplaying_embed t) = title t ∧
     np_requested_by (nowplaying_embed t) = PyStr (requester t) ∧
     (∃ text, np_duration (nowplaying_embed t) = PyStr text ∧
              read_clock text = Some n) ∧
     np_source (nowplaying_embed t)
       = (if truthy (webpage_url t) then Some (webpage_url t) else None)) ∧
  (∀ e, format_duration (duration t) = Raises e →
     nowplaying_embed t
     = {| np_description := PyStr "Unknown track";
          np_duration := PyStr "00:00";
          np_requested_by := PyStr "Unknown";
          np_source := None; np_thumbnail := None |}).
Proof.
  unfold nowplaying_embed. rewrite get_track_info_of_track. split.
  - intros n Hd Hn. rewrite Hd.
    assert (∃ text, format_duration (PyInt n) = Returns text ∧
                    read_clock text = Some n) as (text & -> & Hr).
    { unfold format_duration. simpl. destruct (n =? 0) eqn:Hz; simpl.
      - apply Z.eqb_eq in Hz as ->. by exists "00:00".
      - eexists. split; [done|]. by apply format_clock_reads_back_nonneg. }
    simpl. split; [done|]. split; [done|]. split; [eauto|done].
  - by intros e ->.
Qed.

(** X13. [get_uptime] shows the whole seconds since the start as hours,
    minutes and seconds; the hours are not capped, and the text reads back
    to the number of seconds. From one hour on it is the text that
    [format_duration] gives for the same number. *)
Theorem uptime_reads_back (n : Z) :
  0 ≤ n →
  read_clock (get_uptime n) = Some n ∧
  (3600 ≤ n → format_duration (PyInt n) = Returns (get_uptime n)).
Proof.
  intros Hn.
  assert (0 ≤ n / 3600) as Hh by (apply Z.div_pos; lia).
  assert (0 ≤ n mod 3600 < 3600) as Hr by (apply Z.mod_pos_bound; lia).
  assert (0 ≤ (n mod 3600) / 60) as Hm by (apply Z.div_pos; lia).
  assert (0 ≤ (n mod 3600) mod 60 < 60) as Hs by (apply Z.mod_pos_bound; lia).
  split.
  - unfold get_uptime, read_clock.
    rewrite fields_app_colon by (by apply no_colon_format_02d).
    rewrite fields_app_colon by (by apply no_colon_format_02d).
    rewrite fields_no_colon by (apply no_colon_format_02d; lia).
    cbn [mapM]. rewrite !read_format_02d by lia. simpl. f_equal.
    pose proof (Z.div_mod n 3600). pose proof (Z.div_mod (n mod 3600) 60). lia.
  - intros Hbig. unfold format_duration. simpl.
    assert ((n =? 0) = false) as -> by lia. simpl. f_equal.
    unfold format_clock, get_uptime.
    assert (1 ≤ n / 3600) by (apply Z.div_le_lower_bound; lia).
    assert ((0 <? n / 3600) = true) as -> by lia.
    by rewrite (Z.mod_mod_divide n 3600 60) by (by exists 60).
Qed.

Lemma uptime_reads_back_witness :
  read_clock (get_uptime 90061) = Some 90061 ∧ get_uptime 90061 = "25:01:01".
Proof.
  destruct (uptime_reads_back 90061) as [Hread _]; [lia|].
  split; [exact Hread|reflexivity].
Defined.

(** *** The registry *)

(** X14. [get_player] creates a player for a guild once: the first call
    registers a new player made for the context of that call, every later
    call for the guild, from whatever context, returns the registered
    player and leaves the bot as it is. Other guilds and the voice clients
    are not touched. *)
Theorem get_player_registers_once (ctx ctx' : CommandContext) (b : Bot) :
  guild_id ctx' = guild_id ctx →
  music_players (get_player ctx b).1 !! guild_id ctx = Some (get_player ctx b).2 ∧
  get_player ctx' (get_player ctx b).1 = get_player ctx b ∧
  (get_player ctx b).2
    = default (new_player (author_name ctx)) (music_players b !! guild_id ctx) ∧
  (is_Some (music_players b !! guild_id ctx) → (get_player ctx b).1 = b) ∧
  (∀ g, g ≠ guild_id ctx →
     music_players (get_player ctx b).1 !! g = music_players b !! g) ∧
  voice_clients (get_player ctx b).1 = voice_clients b ∧
  commands_used (get_player ctx b).1 = commands_used b.
Proof.
  intros Hg. unfold get_player. rewrite Hg.
  destruct (music_players b !! guild_id ctx) as [p|] eqn:Hp; simpl.
  - rewrite Hp. repeat split; done.
  - rewrite lookup_insert_eq.
    split; [done|]. split; [done|]. split; [done|].
    split; [by intros [? ?]|]. split; [|done].
    intros g Hne. by rewrite lookup_insert_ne.
Qed.

Lemma get_player_registers_once_witness :
  author (get_player {| guild_id := 7; author_name := "bob" |}
            (get_player Sample.ada
               {| music_players := ∅; voice_clients := ∅; commands_used := ∅ |}).1).2
  = "ada".
Proof.
  pose proof (get_player_registers_once Sample.ada
                {| guild_id := 7; author_name := "bob" |}
                {| music_players := ∅; voice_clients := ∅; commands_used := ∅ |}
                eq_refl) as (_ & Hsame & _).
  rewrite Hsame. reflexivity.
Defined.

Lemma cleanup_session_of g p b :
  voice_client (cleanup (session_of g p b)) = None.
Proof. by destruct (cleanup_releases (session_of g p b)) as (_ & _ & ->). Qed.

Lemma sweep_one_other b g p g' :
  g' ≠ g →
  music_players (sweep_one b (g, p)) !! g' = music_players b !! g' ∧
  voice_clients (sweep_one b (g, p)) !! g' = voice_clients b !! g'.
Proof.
  intros Hne. unfold sweep_one.
  destruct (match voice_clients b !! g with
            | Some vc => negb (connected vc) | None => true end); [|done].
  unfold put_session. rewrite cleanup_session_of. simpl.
  rewrite !lookup_delete_ne by done. by rewrite lookup_insert_ne by done.
Qed.

Lemma sweep_one_same b g p :
  music_players (sweep_one b (g, p)) !! g
    = (if lost b g then None else music_players b !! g) ∧
  voice_clients (sweep_one b (g, p)) !! g
    = (if lost b g then None else voice_clients b !! g).
Proof.
  unfold sweep_one, lost.
  destruct (match voice_clients b !! g with
            | Some vc => negb (connected vc) | None => true end); [|done].
  unfold put_session. rewrite cleanup_session_of. simpl.
  by rewrite !lookup_delete_eq.
Qed.

Lemma sweep_one_commands b e : commands_used (sweep_one b e) = commands_used b.
Proof.
  destruct e as [g p]. unfold sweep_one.
  by destruct (match voice_clients b !! g with
               | Some vc => negb (connected vc) | None => true end).
Qed.

Lemma sweep_list (l : list (Z * MusicPlayer)) : ∀ b g,
  NoDup l.*1 →
  music_players (foldl sweep_one b l) !! g
    = (if bool_decide (g ∈ l.*1) && lost b g then None else music_players b !! g) ∧
  voice_clients (foldl sweep_one b l) !! g
    = (if bool_decide (g ∈ l.*1) && lost b g then None else voice_clients b !! g) ∧
  commands_used (foldl sweep_one b l) = commands_used b.
Proof.
  induction l as [|[g0 p0] l IH]; intros b g Hnd; [done|].
  rewrite fmap_cons in Hnd |- *. cbn [fst] in *.
  apply NoDup_cons in Hnd as [Hnotin Hnd]. cbn [foldl].
  destruct (IH (sweep_one b (g0, p0)) g Hnd) as (-> & -> & ->).
  rewrite sweep_one_commands.
  destruct (decide (g = g0)) as [->|Hne].
  - destruct (sweep_one_same b g0 p0) as [-> ->].
    rewrite (bool_decide_eq_false_2 (g0 ∈ l.*1)) by done.
    rewrite (bool_decide_eq_true_2 (g0 ∈ g0 :: l.*1)) by (apply elem_of_cons; by left).
    simpl. done.
  - destruct (sweep_one_other b g0 p0 g Hne) as [Hm Hv].
    assert (lost (sweep_one b (g0, p0)) g = lost b g) as ->.
    { unfold lost. by rewrite Hv. }
    rewrite Hm, Hv.
    assert (bool_decide (g ∈ g0 :: l.*1) = bool_decide (g ∈ l.*1)) as ->.
    { apply bool_decide_ext. rewrite elem_of_cons.
      split; [by intros [?|?]|by right]. }
    done.
Qed.

(** X15. The sweep [check_voice_connections] keeps exactly the players
    whose guild has a connected voice client, unchanged; every other
    player is cleaned up and leaves the registry, and the voice client of
    its guild, if any, is released. Guilds without a player keep their
    voice client. A second sweep changes nothing. *)
Theorem sweep_keeps_the_connected (b : Bot) (g : Z) :
  music_players (check_voice_connections b) !! g
    = (if lost b g then None else music_players b !! g) ∧
  voice_clients (check_voice_connections b) !! g
    = match music_players b !! g with
      | Some _ => if lost b g then None else voice_clients b !! g
      | None => voice_clients b !! g
      end ∧
  commands_used (check_voice_connections b) = commands_used b ∧
  check_voice_connections (check_voice_connections b)
    = check_voice_connections b.
Proof.
  assert (∀ b g,
    music_players (check_voice_connections b) !! g
      = (if lost b g then None else music_players b !! g) ∧
    voice_clients (check_voice_connections b) !! g
      = match music_players b !! g with
        | Some _ => if lost b g then None else voice_clients b !! g
        | None => voice_clients b !! g
        end ∧
    commands_used (check_voice_connections b) = commands_used b) as Hsweep.
  { clear. intros b g. unfold check_voice_connections.
    destruct (sweep_list (map_to_list (music_players b)) b g) as (-> & -> & ->).
    { apply NoDup_fst_map_to_list. }
    destruct (music_players b !! g) as [p|] eqn:Hp.
    - rewrite bool_decide_eq_true_2; [done|].
      apply list_elem_of_fmap. exists (g, p). split; [done|].
      by apply elem_of_map_to_list.
    - rewrite bool_decide_eq_false_2; [by destruct (lost b g)|].
      intros ([g' p] & -> & Hin)%list_elem_of_fmap.
      apply elem_of_map_to_list in Hin. simpl in Hp. congruence. }
  destruct (Hsweep b g) as (Hm & Hv & Hc).
  split; [done|]. split; [done|]. split; [done|].
  assert (∀ b1 b2 : Bot, music_players b1 = music_players b2 →
            voice_clients b1 = voice_clients b2 →
            commands_used b1 = commands_used b2 → b1 = b2) as Heq.
  { intros [] []. simpl. by intros -> -> ->. }
  apply Heq.
  - apply map_eq. intros g'. destruct (Hsweep (check_voice_connections b) g') as (-> & _ & _).
    destruct (Hsweep b g') as (Hm' & Hv' & _).
    unfold lost at 1. rewrite Hv', Hm'. unfold lost.
    destruct (music_players b !! g'), (voice_clients b !! g') as [[[] ? ?]|]; done.
  - apply map_eq. intros g'. destruct (Hsweep (check_voice_connections b) g') as (_ & -> & _).
    destruct (Hsweep b g') as (Hm' & Hv' & _).
    unfold lost at 1. rewrite Hv', Hm'. unfold lost.
    destruct (music_players b !! g'), (voice_clients b !! g') as [[[] ? ?]|]; done.
  - by destruct (Hsweep (check_voice_connections b) g) as (_ & _ & ->).
Qed.

(** X16. The command [leave] in a guild where the bot has a voice client
    always leaves: afterwards the guild has neither voice client nor
    player, and other guilds are untouched. But when a player was
    registered, the answer is the failure message of l.422: [cleanup] has
    already released the voice client that l.415 then looks up. The
    message of l.416 is sent only when no player was registered. *)
Theorem leave_detaches_but_reports_failure (ctx : CommandContext) (b : Bot) :
  is_Some (voice_clients b !! guild_id ctx) →
  let b' := (cmd_leave ctx b).1 in
  voice_clients b' !! guild_id ctx = None ∧
  music_players b' !! guild_id ctx = None ∧
  (∀ g, g ≠ guild_id ctx →
     voice_clients b' !! g = voice_clients b !! g ∧
     music_players b' !! g = music_players b !! g) ∧
  (cmd_leave ctx b).2
    = match music_players b !! guild_id ctx with
      | Some _ => [FailedToLeave]
      | None => [LeftVoiceChannel]
      end.
Proof.
  intros [vc Hvc]. cbv zeta. unfold cmd_leave. simpl. rewrite Hvc.
  destruct (music_players b !! guild_id ctx) as [p|] eqn:Hp; simpl.
  - unfold put_session. rewrite cleanup_session_of. simpl.
    rewrite lookup_delete_eq. simpl. rewrite !lookup_delete_eq.
    split; [done|]. split; [done|]. split; [|done].
    intros g Hg. rewrite !lookup_delete_ne by done.
    by rewrite lookup_insert_ne by done.
  - rewrite Hvc. simpl. rewrite lookup_delete_eq.
    split; [done|]. split; [done|]. split; [|done].
    intros g Hg. by rewrite lookup_delete_ne by done.
Qed.

Lemma leave_detaches_but_reports_failure_witness :
  (cmd_leave Sample.ada (Sample.bot_with Sample.busy)).2 = [FailedToLeave] ∧
  music_players (cmd_leave Sample.ada (Sample.bot_with Sample.busy)).1 !! 7 = None ∧
  voice_clients (cmd_leave Sample.ada (Sample.bot_with Sample.busy)).1 !! 7 = None.
Proof.
  destruct (leave_detaches_but_reports_failure Sample.ada
              (Sample.bot_with Sample.busy)) as (Hv & Hm & _ & Hr).
  - vm_compute. eauto.
  - split; [exact Hr|]. split; [exact Hm|exact Hv].
Defined.

(** *** The commands [join] and [play] *)

(** X17. The command [join] sends exactly one message and never touches a
    player. A voice client that the guild already has is kept as it is.
    Where there was none, there is one afterwards exactly when the author
    is in a voice channel, the bot may connect and speak there, and
    [connect] succeeds. Other guilds are untouched. *)
Theorem join_connects_or_explains (ctx : CommandContext)
    (voice : option VoiceState) (moves : bool) (c : connect_outcome) (b : Bot) :
  let r := cmd_join ctx voice moves c b in
  music_players r.1 = music_players b ∧
  length r.2 = 1%nat ∧
  (∀ vc, voice_clients b !! guild_id ctx = Some vc →
         voice_clients r.1 = voice_clients b) ∧
  (voice_clients b !! guild_id ctx = None →
   voice_clients r.1 !! guild_id ctx
     = match voice with
       | Some v =>
           if may_connect v && may_speak v
           then match c with Connected => Some connected_client | _ => None end
           else None
       | None => None
       end) ∧
  (∀ g, g ≠ guild_id ctx → voice_clients r.1 !! g = voice_clients b !! g).
Proof.
  cbv zeta. unfold cmd_join. simpl.
  destruct voice as [v|]; simpl.
  2: { repeat split; done. }
  destruct (voice_clients b !! guild_id ctx) as [vc|] eqn:Hvc.
  - destruct (same_channel v), moves; simpl; repeat split; done.
  - destruct (may_connect v), (may_speak v), c; simpl;
      rewrite ?lookup_insert_eq; repeat split; try done;
      intros; by rewrite lookup_insert_ne.
Qed.

(** X18. The command [play] reaches its resolver call only when the author
    is in a voice channel and the guild has a voice client, after [join]
    where needed; a player is then registered for the guild and the last
    message announces the search. Otherwise registry and voice clients are
    as before and the last message tells why. *)
Theorem play_begins_only_in_voice {rt : Runtime} (ctx : CommandContext)
    (voice : option VoiceState) (c : connect_outcome) (query : string)
    (b : Bot) :
  let r := play_begin ctx voice c query b in
  (r.2 = true →
     is_Some voice ∧
     is_Some (voice_clients r.1.1 !! guild_id ctx) ∧
     is_Some (music_players r.1.1 !! guild_id ctx) ∧
     last r.1.2 = Some (Searching (is_url query) query)) ∧
  (r.2 = false →
     music_players r.1.1 = music_players b ∧
     voice_clients r.1.1 = voice_clients b ∧
     (last r.1.2 = Some NeedVoiceChannel ∨ last r.1.2 = Some CouldNotConnect)).
Proof.
  cbv zeta. unfold play_begin. simpl.
  destruct voice as [v|]; simpl.
  2: { split; [done|]. intros _. repeat split; eauto. }
  destruct (voice_clients b !! guild_id ctx) as [vc|] eqn:Hvc; simpl.
  - rewrite Hvc. unfold get_player. simpl.
    destruct (music_players b !! guild_id ctx) eqn:Hp; simpl;
      (split; [intros _|done]).
    + rewrite Hvc, Hp. repeat split; eauto.
    + rewrite Hvc, lookup_insert_eq. repeat split; eauto.
  - unfold cmd_join. simpl. rewrite ?Hvc.
    destruct (may_connect v), (may_speak v), c; simpl; rewrite ?Hvc;
      rewrite ?lookup_insert_eq; simpl;
      try (split; [done|]; intros _; repeat split; eauto).
    unfold get_player. simpl.
    destruct (music_players b !! guild_id ctx) eqn:Hp; simpl;
      (split; [intros _|done]); rewrite ?Hp, ?lookup_insert_eq;
      repeat split; eauto.
Qed.

Lemma put_session_same g p b :
  music_players b !! g = Some p →
  put_session g (session_of g p b) b = b.
Proof.
  intros Hp. destruct b as [mp vcs cu]. unfold put_session, session_of.
  simpl in *. f_equal.
  - by apply insert_id.
  - destruct (vcs !! g) eqn:Hv; [by apply insert_id|by apply delete_id].
Qed.

(** X19. What [play] answers and what it does to the queue. When the query
    cannot be resolved, the bot is unchanged and the answer carries the
    text of the error. When it resolves to a track, the track is appended
    to the queue of the registered player in every case: also when the
    guild lost its voice client during the resolver call (the answer is
    then the error of l.371, and the play count is not incremented), and
    also when its duration cannot be formatted (the answer is then the
    error of [format_duration], after the play count was incremented). *)
Theorem play_reply_and_queue {rt : Runtime} (ctx : CommandContext)
    (query : string) (r : extract_result) (b : Bot) (st : Stats)
    (p : MusicPlayer) :
  music_players b !! guild_id ctx = Some p →
  ∃ b' st' out,
    play_finish ctx query r b st = Some (b', st', out) ∧
    match song_info_of (author p) r with
    | Raise e =>
        b' = b ∧ st' = st ∧
        out = [CouldNotAddSong (str_exn (wrap_error (search_query query) e))]
    | Return t =>
        (queue <$> music_players b' !! guild_id ctx) = Some (queue p ++ [t])%list ∧
        match voice_clients b !! guild_id ctx with
        | None =>
            st' = st ∧
            out = [CouldNotAddSong
                     (could_not_process (search_query query)
                        (could_not_process (search_query query)
                           "'NoneType' object has no attribute 'is_playing'"))]
        | Some _ =>
            play_count st' = S (play_count st) ∧
            out = match format_duration (duration t) with
                  | Returns d => [AddedToQueueReply (title t) d]
                  | Raises e => [CouldNotAddSong (str_error e)]
                  end
        end
    end.
Proof.
  intros Hp. unfold play_finish. rewrite Hp. simpl.
  unfold add_to_queue. simpl.
  destruct (song_info_of (author p) r) as [t|e] eqn:Ht; simpl.
  - destruct (voice_clients b !! guild_id ctx) as [vc|] eqn:Hvc; simpl.
    + destruct (format_duration (duration t)); eexists _, _, _;
        (split; [done|]); (split; [|done]);
        unfold put_session; simpl; rewrite lookup_insert_eq; simpl;
        by destruct (playing vc).
    + eexists _, _, _. split; [done|]. split; [|done].
      unfold put_session. simpl. by rewrite lookup_insert_eq.
  - eexists _, _, _. split; [done|]. split; [|done].
    by apply put_session_same.
Qed.

Lemma play_reply_and_queue_witness :
  ∃ b' st',
    play_finish (rt := Ascii_runtime.runtime) Cases.bob "a"
      (Sample.found "a" 10) (Sample.bot_with Sample.idle) Cases.no_stats
    = Some (b', st', [AddedToQueueReply (PyStr "a") "00:10"]).
Proof.
  destruct (play_reply_and_queue (rt := Ascii_runtime.runtime) Cases.bob "a"
              (Sample.found "a" 10) (Sample.bot_with Sample.idle) Cases.no_stats
              (player Sample.idle)) as (b' & st' & out & Hfin & Hout).
  - reflexivity.
  - exists b', st'. rewrite Hfin. vm_compute in Hout.
    destruct Hout as (_ & _ & ->). reflexivity.
Defined.

Lemma author_step {rt : Runtime} e s :
  author (player (step e s).1) = author (player s).
Proof.
  destruct e; simpl.
  - unfold add_to_queue. destruct (song_info_of _ r); [|done]. simpl.
    by case_client s.
  - unfold skip, vc_stop. by case_client s.
  - unfold stop, vc_stop. simpl. by case_client s.
  - unfold cleanup, vc_disconnect, vc_stop. simpl.
    destruct (audio_player (player s)); simpl; by case_client s.
  - done.
  - assert (i = TimedOut ∨ i ≠ TimedOut) as [->|Hi]
      by (destruct i; (by left) || (by right)).
    + unfold player_loop, cleanup, vc_disconnect, vc_stop. simpl.
      destruct (audio_player (player s)) as [[]|]; simpl; by case_client s.
    + by destruct (fifo_player_loop i s Hi) as [[_ ->] _].
  - unfold run_callback. by destruct (scheduled (player s)) as [|[] ?].
  - unfold stream_ends. by case_client s.
Qed.

Lemma author_run {rt : Runtime} es s :
  author (player (run es s).1) = author (player s).
Proof.
  revert s. induction es as [|e es IH]; intros s; [done|].
  simpl. pose proof (author_step e s) as He.
  destruct (step e s) as [s1 out1]. specialize (IH s1).
  destruct (run es s1). simpl in *. congruence.
Qed.

(** X20. The requester of a track is the author of the command that created
    the player, not the author of the [play] that enqueued it: the player
    keeps the context it was created with (l.231, l.364), and no event of
    the session changes it. *)
Theorem play_names_the_creator_of_the_player {rt : Runtime}
    (ctx : CommandContext) (query : string) (r : extract_result) (b : Bot)
    (st : Stats) (p : MusicPlayer) (t : song_info) :
  music_players b !! guild_id ctx = Some p →
  song_info_of (author p) r = Return t →
  requester t = author p ∧
  (∃ b' st' out,
     play_finish ctx query r b st = Some (b', st', out) ∧
     (queue <$> music_players b' !! guild_id ctx) = Some (queue p ++ [t])%list) ∧
  (∀ ctx0 b0, music_players b0 !! guild_id ctx0 = None →
     author (get_player ctx0 b0).2 = author_name ctx0) ∧
  (∀ es s, author (player (run es s).1) = author (player s)).
Proof.
  intros Hp Ht. split; [|split; [|split]].
  - unfold song_info_of in Ht.
    destruct (select_entry r) as [data|]; [|done]. simpl in Ht.
    by apply build_song_info_dict in Ht as (d & -> & ->).
  - unfold play_finish. rewrite Hp. simpl.
    destruct (add_to_queue_appends query r (session_of (guild_id ctx) p b) t Ht)
      as [Hq _].
    destruct (add_to_queue query r (session_of (guild_id ctx) p b))
      as [[s res] out] eqn:Ha. simpl in Hq.
    destruct res as [t'|e]; [destruct (format_duration (duration t'))|];
      (eexists _, _, _; split; [done|]);
      unfold put_session; simpl; rewrite lookup_insert_eq; simpl; by rewrite Hq.
  - intros ctx0 b0 Hnone. unfold get_player. by rewrite Hnone.
  - apply @author_run.
Qed.

Lemma play_names_the_creator_of_the_player_witness :
  requester (Sample.track "a" 10) = "ada" ∧ author_name Cases.bob = "bob".
Proof.
  destruct (play_names_the_creator_of_the_player (rt := Ascii_runtime.runtime)
              Cases.bob "a" (Sample.found "a" 10) (Sample.bot_with Sample.idle)
              Cases.no_stats (player Sample.idle) (Sample.track "a" 10))
    as (Hreq & _).
  - reflexivity.
  - reflexivity.
  - split; [exact Hreq|reflexivity].
Defined.

Lemma play_finish_resolved {rt : Runtime} ctx query r b st p vc t :
  music_players b !! guild_id ctx = Some p →
  voice_clients b !! guild_id ctx = Some vc →
  song_info_of (author p) r = Return t →
  ∃ b' st',
    play_finish ctx query r b st
      = Some (b', st',
              match format_duration (duration t) with
              | Returns d => [AddedToQueueReply (title t) d]
              | Raises e => [CouldNotAddSong (str_error e)]
              end) ∧
    (queue <$> music_players b' !! guild_id ctx) = Some (queue p ++ [t])%list ∧
    play_count st' = S (play_count st).
Proof.
  intros Hp Hvc Ht. unfold play_finish. rewrite Hp. simpl.
  unfold add_to_queue. simpl. rewrite Ht. simpl. rewrite Hvc. simpl.
  destruct (format_duration (duration t)); eexists _, _;
    (split; [done|]); (split; [|done]);
    unfold put_session; simpl; rewrite lookup_insert_eq; simpl;
    by destruct (playing vc).
Qed.

(** X21. A track whose reported duration is a float other than zero is
    enqueued and counted as played, but [play] answers that it could not
    add the song: [format_duration] fails on the float (l.278). The same
    failure makes [get_track_info] fall back to its unknown track, and the
    rows of [queue] fail on such a track. *)
Theorem float_duration_is_queued_but_refused {rt : Runtime}
    (ctx : CommandContext) (query : string) (r : extract_result) (b : Bot)
    (st : Stats) (p : MusicPlayer) (d : gmap string pyval) (f : spec_float) :
  music_players b !! guild_id ctx = Some p →
  is_Some (voice_clients b !! guild_id ctx) →
  select_entry r = Return (PyDict d) →
  d !! "duration" = Some (PyFloat f) →
  truthy (PyFloat f) = true →
  ∃ t b' st',
    song_info_of (author p) r = Return t ∧
    duration t = PyFloat f ∧
    play_finish ctx query r b st
      = Some (b', st',
              [CouldNotAddSong
                 "Unknown format code 'd' for object of type 'float'"]) ∧
    (queue <$> music_players b' !! guild_id ctx) = Some (queue p ++ [t])%list ∧
    play_count st' = S (play_count st) ∧
    get_track_info (song_info_dict t) = unknown_track ∧
    queue_row_of t
      = Raises (ValueError "Unknown format code 'd' for object of type 'float'").
Proof.
  intros Hp [vc Hvc] Hsel Hd Hf.
  assert (∃ t, song_info_of (author p) r = Return t ∧ duration t = PyFloat f)
    as (t & Ht & Hdur).
  { unfold song_info_of. rewrite Hsel. simpl. unfold build_song_info. simpl.
    eexists. split; [done|]. simpl. by rewrite Hd. }
  assert (format_duration (duration t)
          = Raises (ValueError "Unknown format code 'd' for object of type 'float'"))
    as Hfmt.
  { rewrite Hdur. unfold format_duration. by rewrite Hf. }
  destruct (play_finish_resolved ctx query r b st p vc t Hp Hvc Ht)
    as (b' & st' & Hfin & Hq & Hc).
  rewrite Hfmt in Hfin. exists t, b', st'.
  split; [done|]. split; [done|]. split; [done|]. split; [done|].
  split; [done|]. split.
  - by rewrite get_track_info_of_track, Hfmt.
  - unfold queue_row_of. by rewrite Hfmt.
Qed.

Lemma float_duration_is_queued_but_refused_witness :
  ∃ b' st',
    play_finish (rt := Ascii_runtime.runtime) Cases.bob "f"
      (ExtractReturns (PyDict Cases.float_entry))
      (Sample.bot_with Sample.idle) Cases.no_stats
    = Some (b', st',
            [CouldNotAddSong "Unknown format code 'd' for object of type 'float'"]) ∧
    (length <$> (queue <$> music_players b' !! 7)) = Some 1%nat.
Proof.
  destruct (float_duration_is_queued_but_refused (rt := Ascii_runtime.runtime)
              Cases.bob "f" (ExtractReturns (PyDict Cases.float_entry))
              (Sample.bot_with Sample.idle) Cases.no_stats
              (player Sample.idle) Cases.float_entry
              (S754_finite false 7476679068876800 (-45)))
    as (t & b' & st' & _ & _ & Hfin & Hq & _).
  - reflexivity.
  - vm_compute. eauto.
  - reflexivity.
  - reflexivity.
  - reflexivity.
  - exists b', st'. split; [exact Hfin|].
    change (guild_id Cases.bob) with 7 in Hq. rewrite Hq. reflexivity.
Defined.

Lemma cleanup_author s : author (player (cleanup s)) = author (player s).
Proof.
  unfold cleanup, vc_disconnect, vc_stop. simpl.
  destruct (audio_player (player s)); simpl; by case_client s.
Qed.

(** X22. [play] after the idle timeout. The loop of a registered player
    waits at l.252 and meets its idle timeout; the player stays registered
    all the same. A [play] that comes before the next sweep joins the voice
    channel again, gets the dead player from [get_player], enqueues the
    track on it and answers that the track was added. The track is never
    taken for playback, whatever happens to the session later. *)
Theorem play_after_idle_timeout_is_never_heard {rt : Runtime}
    (ctx : CommandContext) (v : VoiceState) (query : string)
    (r : extract_result) (b : Bot) (st : Stats) (p : MusicPlayer)
    (t : song_info) (d : string) :
  music_players b !! guild_id ctx = Some p →
  audio_player p = Running AtWaitEmpty →
  may_connect v = true → may_speak v = true →
  song_info_of (author p) r = Return t →
  format_duration (duration t) = Returns d →
  let b1 := (deliver (guild_id ctx) (Loop TimedOut) b).1 in
  let b2 := (play_begin ctx (Some v) Connected query b1).1.1 in
  play_begin ctx (Some v) Connected query b1
    = (b2, [Joined (channel_name v); Searching (is_url query) query], true) ∧
  ∃ b3 st' p',
    play_finish ctx query r b2 st
      = Some (b3, st', [AddedToQueueReply (title t) d]) ∧
    music_players b3 !! guild_id ctx = Some p' ∧
    queue p' = [t] ∧
    ∀ es, played (run es (session_of (guild_id ctx) p' b3)).2 = [].
Proof.
  intros Hp Hpc Hcon Hsp Ht Hd. cbv zeta.
  rewrite (idle_timeout_runs_cleanup _ b p Hp Hpc). cbn [fst].
  set (g := guild_id ctx).
  destruct (cleanup_releases (session_of g p b)) as (Hq & Hc & Hv).
  pose proof (cleanup_author (session_of g p b)) as Ha.
  set (s1 := cleanup (session_of g p b)) in *.
  assert (play_begin ctx (Some v) Connected query (put_session g s1 b)
          = ({| music_players := <[g := player s1]> (music_players b);
                voice_clients := <[g := connected_client]> (delete g (voice_clients b));
                commands_used :=
                  commands_used (increment_command_usage "join"
                    (increment_command_usage "play" b)) |},
             [Joined (channel_name v); Searching (is_url query) query], true))
    as Hbegin.
  { unfold play_begin, cmd_join, put_session, get_player. simpl. rewrite Hv.
    fold g. rewrite lookup_delete_eq, Hcon, Hsp. simpl.
    rewrite !lookup_insert_eq. done. }
  rewrite Hbegin. cbn [fst]. split; [done|].
  unfold play_finish. simpl. fold g. rewrite lookup_insert_eq. simpl.
  unfold add_to_queue, session_of. simpl. rewrite Ha. simpl. rewrite Ht.
  simpl. rewrite lookup_insert_eq. simpl. rewrite Hd.
  eexists _, _, _. split; [done|]. unfold put_session. simpl.
  rewrite lookup_insert_eq. split; [done|]. simpl. rewrite Hq.
  split; [done|]. intros es. apply cancelled_never_plays. simpl. exact Hc.
Qed.

Lemma play_after_idle_timeout_is_never_heard_witness :
  (play_begin (rt := Ascii_runtime.runtime) Cases.bob (Some Cases.lounge)
     Connected "a"
     (deliver (rt := Ascii_runtime.runtime) 7 (Loop TimedOut)
        (Sample.bot_with Sample.idle)).1).1.2
  = [Joined "Lounge"; Searching false "a"].
Proof.
  destruct (play_after_idle_timeout_is_never_heard (rt := Ascii_runtime.runtime)
              Cases.bob Cases.lounge "a" (Sample.found "a" 10)
              (Sample.bot_with Sample.idle) Cases.no_stats (player Sample.idle)
              (Sample.track "a" 10) "00:10") as [Hbegin _].
  - reflexivity.
  - reflexivity.
  - reflexivity.
  - reflexivity.
  - reflexivity.
  - reflexivity.
  - change (guild_id Cases.bob) with 7 in Hbegin. rewrite Hbegin. reflexivity.
Defined.

(** *** The commands [stop], [queue] and [volume] *)

(** X23. The command [stop] needs a voice client. Without one it answers
    that nothing is playing and leaves registry and queues as they are.
    With one it clears the queue of the guild's player (which it creates
    when there is none) and halts the stream; the player task and the
    current slot are kept. *)
Theorem stop_command_needs_a_voice_client (ctx : CommandContext) (b : Bot) :
  (voice_clients b !! guild_id ctx = None →
     cmd_stop ctx b = (increment_command_usage "stop" b, [NotPlayingAnything])) ∧
  (is_Some (voice_clients b !! guild_id ctx) →
     (cmd_stop ctx b).2 = [StoppedAndCleared] ∧
     (queue <$> music_players (cmd_stop ctx b).1 !! guild_id ctx) = Some [] ∧
     (playing <$> voice_clients (cmd_stop ctx b).1 !! guild_id ctx) = Some false ∧
     (audio_player <$> music_players (cmd_stop ctx b).1 !! guild_id ctx)
       = Some (audio_player (get_player ctx b).2) ∧
     (current <$> music_players (cmd_stop ctx b).1 !! guild_id ctx)
       = Some (current (get_player ctx b).2)).
Proof.
  unfold cmd_stop. simpl. split.
  - by intros ->.
  - intros [vc Hvc]. rewrite Hvc.
    unfold get_player. simpl.
    destruct (music_players b !! guild_id ctx) as [p|] eqn:Hp; simpl;
      unfold put_session, stop, session_of, vc_stop; simpl; rewrite Hvc;
      destruct (playing vc) eqn:Hpl; simpl; rewrite !lookup_insert_eq; simpl;
      by rewrite ?Hpl.
Qed.

Lemma queue_rows_length ts rows :
  queue_rows ts = Returns rows → length rows = length ts.
Proof.
  revert rows. induction ts as [|t ts IH]; intros rows; simpl.
  - by intros [= <-].
  - unfold queue_row_of. destruct (format_duration (duration t)); [|done]. simpl.
    destruct (queue_rows ts) as [rows'|]; [|done]. simpl.
    intros [= <-]. simpl. by rewrite (IH rows').
Qed.

Lemma queue_rows_titles ts rows :
  queue_rows ts = Returns rows → row_title <$> rows = title <$> ts.
Proof.
  revert rows. induction ts as [|t ts IH]; intros rows; simpl.
  - by intros [= <-].
  - unfold queue_row_of. destruct (format_duration (duration t)); [|done]. simpl.
    destruct (queue_rows ts) as [rows'|]; [|done]. simpl.
    intros [= <-]. rewrite !fmap_cons. by rewrite (IH rows').
Qed.

Lemma queue_embed_rows p now rows rest :
  queue_embed p = Returns (QueueEmbed now rows rest) →
  row_title <$> rows = title <$> take 10 (queue p) ∧
  (length rows + rest)%nat = length (queue p) ∧
  (row_title <$> now) = (title <$> current p).
Proof.
  unfold queue_embed. intros Hm.
  assert (∀ now', (rows0 ← queue_rows (take 10 (queue p));
            Returns (QueueEmbed now' rows0
                       (if (10 <? length (queue p))%nat
                        then (length (queue p) - 10)%nat else 0%nat)))
          = Returns (QueueEmbed now rows rest) →
          now' = now ∧
          row_title <$> rows = title <$> take 10 (queue p) ∧
          (length rows + rest)%nat = length (queue p)) as Hrest.
  { intros now'.
    destruct (queue_rows (take 10 (queue p))) as [rows'|] eqn:Hrows; [|done].
    simpl. intros [= <- <- <-]. split; [done|].
    split; [by apply queue_rows_titles|].
    apply queue_rows_length in Hrows. rewrite length_take in Hrows.
    destruct (Nat.ltb_spec 10 (length (queue p))); lia. }
  destruct (current p) as [c|]; simpl in Hm.
  - unfold queue_row_of in Hm at 1.
    destruct (format_duration (duration c)); simpl in Hm; [|done].
    by destruct (Hrest _ Hm) as (<- & ? & ?).
  - by destruct (Hrest _ Hm) as (<- & ? & ?).
Qed.

(** X24. The command [queue] answers that the queue is empty exactly when
    the queue is empty and the current slot is empty; since the slot is
    never emptied again, it never gives that answer once a track
    has been taken. Its embed lists the first ten queued tracks in order,
    counts the others, and shows the track of the current slot. *)
Theorem queue_command_shows_ten (ctx : CommandContext) (b : Bot)
    (p : MusicPlayer) :
  music_players b !! guild_id ctx = Some p →
  ((cmd_queue ctx b).2 = [QueueIsEmpty] ↔ queue p = [] ∧ current p = None) ∧
  (∀ now rows rest,
     (cmd_queue ctx b).2 = [QueueEmbed now rows rest] →
     row_title <$> rows = title <$> take 10 (queue p) ∧
     (length rows + rest)%nat = length (queue p) ∧
     (row_title <$> now) = (title <$> current p)) ∧
  (∀ (rt : Runtime) (es : list event) (s : Session),
     is_Some (current (player s)) → p = player (run es s).1 →
     (cmd_queue ctx b).2 ≠ [QueueIsEmpty]).
Proof.
  intros Hp.
  assert (∀ (rt : Runtime) (es : list event) (s : Session),
            is_Some (current (player s)) → p = player (run es s).1 →
            current p ≠ None) as Hcur.
  { intros rt es s Hs ->. apply (current_run es) in Hs. by destruct Hs as [? ->]. }
  unfold cmd_queue, get_player. simpl. rewrite Hp.
  assert (∀ (b' : Bot) m,
            (match queue_embed p with
             | Returns m0 => (b', [m0])
             | Raises _ => (b', [FailedToDisplayQueue])
             end).2 = [m] →
          queue_embed p = Returns m ∨ m = FailedToDisplayQueue) as Hcase.
  { intros b' m. destruct (queue_embed p); simpl; intros [= <-]; eauto. }
  assert (∀ m, queue_embed p = Returns m → m ≠ QueueIsEmpty) as Hne.
  { intros m. unfold queue_embed.
    destruct (match current p with
              | Some t => row ← queue_row_of t; Returns (Some row)
              | None => Returns None end); [|done]. simpl.
    destruct (queue_rows _); [|done]. simpl. by intros [= <-]. }
  split.
  - clear Hcur. split; [|by intros [-> ->]].
    destruct (queue p) as [|t q], (current p) as [c|]; try done;
      intros Hout; destruct (Hcase _ _ Hout) as [Hm|?]; try done;
      by apply Hne in Hm.
  - split.
    + intros now rows rest Hout. apply queue_embed_rows.
      destruct (queue p) as [|t q], (current p) as [c|]; try done;
        by destruct (Hcase _ _ Hout).
    + intros rt es s Hs Hpe Hout. specialize (Hcur rt es s Hs Hpe).
      destruct (queue p) as [|t q], (current p) as [c|]; try done;
        destruct (Hcase _ _ Hout) as [Hm|?]; try done; by apply Hne in Hm.
Qed.

Lemma queue_command_shows_ten_witness :
  (cmd_queue Sample.ada (Sample.bot_with Sample.busy)).2
  = [QueueEmbed (Some {| row_title := PyStr "a"; row_duration := "00:10" |})
       [{| row_title := PyStr "b"; row_duration := "00:20" |}] 0] ∧
  (cmd_queue Sample.ada (Sample.bot_with Sample.busy)).2 ≠ [QueueIsEmpty].
Proof.
  destruct (queue_command_shows_ten Sample.ada (Sample.bot_with Sample.busy)
              (player Sample.busy)) as (Hempty & _ & _).
  - reflexivity.
  - split; [reflexivity|]. intros He. apply Hempty in He as [He _].
    vm_compute in He. discriminate.
Defined.

Lemma get_player_voice_clients ctx b :
  voice_clients (get_player ctx b).1 = voice_clients b.
Proof. unfold get_player. by destruct (music_players b !! guild_id ctx). Qed.

Lemma percent_needs_no_clamp (n : Z) :
  0 ≤ n ≤ 100 →
  py_max float_zero (py_min float_one (true_divide n 100)) = true_divide n 100 ∧
  in_unit (true_divide n 100) = true.
Proof.
  intros Hn. rewrite <- (Z2Nat.id n) by lia.
  assert (Z.to_nat n ≤ 100)%nat as Hk by lia.
  generalize dependent (Z.to_nat n). clear. intros k Hk.
  do 101 (destruct k as [|k]; [vm_compute; done|]). lia.
Qed.

(** X25. The command [volume] never makes [set_volume] clamp. For a
    percentage from 0 to 100 the player's volume becomes exactly the float
    [n / 100], which lies in [0, 1], and the source that the voice client
    holds gets the same volume; any other percentage is refused and
    changes nothing but the command counter. *)
Theorem volume_command_never_clamps (ctx : CommandContext) (n : Z) (b : Bot) :
  is_Some (voice_clients b !! guild_id ctx) →
  (0 ≤ n ≤ 100 →
     (cmd_volume ctx n b).2 = [VolumeSetTo n] ∧
     (volume <$> music_players (cmd_volume ctx n b).1 !! guild_id ctx)
       = Some (true_divide n 100) ∧
     in_unit (true_divide n 100) = true ∧
     (∀ src, (voice_clients b !! guild_id ctx ≫= source) = Some src →
        (voice_clients (cmd_volume ctx n b).1 !! guild_id ctx ≫= source)
          = Some {| src_song := src_song src;
                    src_volume := Some (true_divide n 100) |})) ∧
  (¬ 0 ≤ n ≤ 100 →
     cmd_volume ctx n b
       = (increment_command_usage "volume" b, [VolumeOutOfRange])).
Proof.
  intros [vc Hvc]. unfold cmd_volume. simpl. rewrite Hvc. split.
  - intros Hn. destruct (percent_needs_no_clamp n Hn) as [Hclamp Hunit].
    assert ((0 <=? n) && (n <=? 100) = true) as -> by lia. simpl.
    destruct (get_player ctx (increment_command_usage "volume" b))
      as [b1 p] eqn:Hg.
    assert (voice_clients b1 = voice_clients b) as Hv1.
    { change b1 with (b1, p).1. rewrite <- Hg.
      by rewrite get_player_voice_clients. }
    split; [done|]. unfold put_session, set_volume, session_of. simpl.
    rewrite Hv1, Hvc. simpl. rewrite !lookup_insert_eq. simpl.
    rewrite Hclamp. split; [done|]. split; [done|].
    intros src Hsrc. unfold set_source_volume. by rewrite Hsrc.
  - intros Hn. assert ((0 <=? n) && (n <=? 100) = false) as -> by lia. done.
Qed.

Lemma volume_command_never_clamps_witness :
  (volume <$> music_players (cmd_volume Sample.ada 50
                               (Sample.bot_with Sample.busy)).1 !! 7)
  = Some float_half.
Proof.
  destruct (volume_command_never_clamps Sample.ada 50
              (Sample.bot_with Sample.busy)) as [Hset _].
  - vm_compute. eauto.
  - destruct Hset as (_ & Hvol & _); [lia|].
    change (guild_id Sample.ada) with 7 in Hvol. rewrite Hvol. reflexivity.
Defined.

(** X26. Every command counts itself once in [stats["commands_used"]], and
    nothing else that a command does (creating a player, cleaning up,
    storing a session) touches the counters. [play] counts [join] as well
    when it has to join. [_increment_command_usage] adds one to the
    counter of its name, starting from zero, and leaves the others. *)
Theorem every_command_counts_itself {rt : Runtime} (ctx : CommandContext)
    (b : Bot) :
  commands_used (cmd_skip ctx b).1
    = commands_used (increment_command_usage "skip" b) ∧
  commands_used (cmd_nowplaying ctx b).1
    = commands_used (increment_command_usage "nowplaying" b) ∧
  commands_used (cmd_leave ctx b).1
    = commands_used (increment_command_usage "leave" b) ∧
  commands_used (cmd_stop ctx b).1
    = commands_used (increment_command_usage "stop" b) ∧
  commands_used (cmd_queue ctx b).1
    = commands_used (increment_command_usage "queue" b) ∧
  (∀ n, commands_used (cmd_volume ctx n b).1
        = commands_used (increment_command_usage "volume" b)) ∧
  (∀ voice moves c,
     commands_used (cmd_join ctx voice moves c b).1
     = commands_used (increment_command_usage "join" b)) ∧
  (∀ voice c query,
     commands_used (play_begin ctx voice c query b).1.1
     = commands_used
         (match voice, voice_clients b !! guild_id ctx with
          | Some _, None =>
              increment_command_usage "join" (increment_command_usage "play" b)
          | _, _ => increment_command_usage "play" b
          end)) ∧
  (∀ query r st b' st' out,
     play_finish ctx query r b st = Some (b', st', out) →
     commands_used b' = commands_used b) ∧
  (∀ name, commands_used (increment_command_usage name b) !! name
           = Some (S (default 0%nat (commands_used b !! name)))) ∧
  (∀ name other, other ≠ name →
     commands_used (increment_command_usage name b) !! other
     = commands_used b !! other).
Proof.
  repeat apply conj.
  - unfold cmd_skip. simpl. destruct (voice_clients b !! guild_id ctx) as [vc|]; [|done].
    destruct (playing vc); [|done]. simpl. unfold get_player. simpl.
    by destruct (music_players b !! guild_id ctx).
  - unfold cmd_nowplaying, get_player. simpl.
    destruct (music_players b !! guild_id ctx) as [p|]; simpl;
      [by destruct (current p)|done].
  - unfold cmd_leave. simpl. destruct (voice_clients b !! guild_id ctx); [|done].
    destruct (music_players b !! guild_id ctx); simpl;
      by destruct (_ !! guild_id ctx).
  - unfold cmd_stop. simpl. destruct (voice_clients b !! guild_id ctx); [|done].
    unfold get_player. simpl. by destruct (music_players b !! guild_id ctx).
  - unfold cmd_queue, get_player. simpl.
    destruct (music_players b !! guild_id ctx) as [p|]; simpl.
    + destruct (queue p), (current p); try done; by destruct (queue_embed p).
    + done.
  - intros n. unfold cmd_volume. simpl.
    destruct (voice_clients b !! guild_id ctx); [|done].
    destruct (negb _); [done|]. unfold get_player. simpl.
    by destruct (music_players b !! guild_id ctx).
  - intros voice moves c. unfold cmd_join. simpl. destruct voice as [v|]; [|done].
    destruct (voice_clients b !! guild_id ctx).
    + by destruct (same_channel v), moves.
    + by destruct (negb _ || negb _), c.
  - intros voice c query. unfold play_begin. simpl.
    destruct voice as [v|]; simpl; [|done].
    destruct (voice_clients b !! guild_id ctx) as [vc|] eqn:Hvc; simpl.
    + rewrite Hvc.
      unfold get_player. simpl. by destruct (music_players b !! guild_id ctx).
    + unfold cmd_join. simpl. rewrite ?Hvc.
      destruct (may_connect v), (may_speak v), c; simpl; rewrite ?Hvc;
        rewrite ?lookup_insert_eq; simpl; try done;
        unfold get_player; simpl; by destruct (music_players b !! guild_id ctx).
  - intros query r st b' st' out. unfold play_finish.
    destruct (music_players b !! guild_id ctx) as [p|]; [|done]. simpl.
    destruct (add_to_queue _ _ _) as [[s res] o].
    destruct res as [t|e]; [destruct (format_duration _)|];
      by intros [= <- _ _].
  - intros name. simpl. apply lookup_insert_eq.
  - intros name other Hne. simpl. by apply lookup_insert_ne.
Qed.

(** *** Reconnection *)

Lemma connection_invariant es st :
  let c := (net_run es (new_connection, st)).1.1 in
  max_reconnect_attempts c = 5 ∧ reconnect_delay c = 5 ∧
  0 ≤ reconnect_attempts c.
Proof.
  cbv zeta.
  assert (∀ es x, max_reconnect_attempts x.1 = 5 → reconnect_delay x.1 = 5 →
            0 ≤ reconnect_attempts x.1 →
            max_reconnect_attempts (net_run es x).1.1 = 5 ∧
            reconnect_delay (net_run es x).1.1 = 5 ∧
            0 ≤ reconnect_attempts (net_run es x).1.1) as Hinv.
  { clear. induction es as [|e es IH]; intros [c st] Hm Hd Ha; [done|].
    simpl in *. destruct e; simpl.
    - specialize (IH (heartbeat c, st)).
      destruct (net_run es (heartbeat c, st)) as [x2 out2]. simpl in *.
      apply IH; done || lia.
    - unfold on_disconnect. simpl.
      destruct (reconnect_attempts c + 1 <=? max_reconnect_attempts c);
        match goal with
        | |- context [net_run es ?x] =>
            specialize (IH x); destruct (net_run es x) as [x2 out2]
        end; simpl in *; apply IH; done || lia. }
  by apply Hinv.
Qed.

(** X27. The backoff of [on_disconnect]. In every state that heartbeats
    and disconnections reach from [__init__], with [k] disconnections
    since the last heartbeat, the next disconnection waits [5 * 2 ^ k]
    seconds when [k < 5], which is at most 80 (the cap of 300 at l.174 is
    never reached), and gives up when [k >= 5]. It counts one more attempt
    and one more reconnection; a heartbeat resets the attempts. *)
Theorem reconnect_backs_off_and_gives_up (es : list net_event) (st : Stats) :
  let x := (net_run es (new_connection, st)).1 in
  let k := reconnect_attempts x.1 in
  0 ≤ k ∧
  (on_disconnect x.1 x.2).2
    = (if k <? 5 then RetryAfter (5 * 2 ^ k) else GiveUp) ∧
  (k < 5 → 5 ≤ 5 * 2 ^ k ≤ 80) ∧
  reconnect_attempts (on_disconnect x.1 x.2).1.1 = k + 1 ∧
  reconnect_attempts (heartbeat x.1) = 0 ∧
  reconnections (on_disconnect x.1 x.2).1.2 = S (reconnections x.2).
Proof.
  cbv zeta. destruct (connection_invariant es st) as (Hm & Hd & Ha).
  destruct (net_run es (new_connection, st)) as [[c st'] out]. simpl in *.
  split; [done|]. unfold on_disconnect. simpl. rewrite Hm, Hd.
  assert (reconnect_attempts c + 1 - 1 = reconnect_attempts c) as -> by lia.
  split; [|split].
  - destruct (reconnect_attempts c <? 5) eqn:Hk.
    + assert ((reconnect_attempts c + 1 <=? 5) = true) as -> by lia. simpl.
      f_equal. apply Z.min_r.
      assert (2 ^ reconnect_attempts c ≤ 2 ^ 4)
        by (apply Z.pow_le_mono_r; lia). lia.
    + by assert ((reconnect_attempts c + 1 <=? 5) = false) as -> by lia.
  - intros Hk.
    assert (2 ^ 0 ≤ 2 ^ reconnect_attempts c) by (apply Z.pow_le_mono_r; lia).
    assert (2 ^ reconnect_attempts c ≤ 2 ^ 4) by (apply Z.pow_le_mono_r; lia).
    lia.
  - by destruct (reconnect_attempts c + 1 <=? 5).
Qed.
